(** * DriverControl: the user-mode client of the BlackBone driver

    A shallow embedding of [src/BlackBone/DriverControl/DriverControl.cpp].
    The class owns one device handle ([_hDriver]) and talks to the operating
    system through a handful of calls (CreateFile, CloseHandle,
    DeviceIoControl, NtLoadDriver, NtUnloadDriver, the registry API, malloc and
    free).  Every such call is a primitive of a small state monad: it appends
    itself to a log, asks the environment for the answer and updates the part
    of the world it touches.  The environment is a record of answer functions
    that see the log of earlier calls, so a scripted fake channel is an
    ordinary value of that record. *)

From Stdlib Require Import ZArith String Ascii Bool.
From stdpp Require Import base option list gmap.

Local Open Scope Z_scope.

(** ** Machine integers and wide strings *)

Definition NTSTATUS := Z.   (* LONG, signed 32 bits *)
Definition LSTATUS := Z.    (* LONG *)
Definition HANDLE := Z.     (* pointer sized, kept unsigned; x64 build *)
Definition Block := nat.    (* identity of a malloc'ed block *)

Definition wrap (bits x : Z) : Z := x mod 2 ^ bits.
Definition to_ULONG (x : Z) : Z := wrap 32 x.
Definition to_ULONGLONG (x : Z) : Z := wrap 64 x.
(** [(HANDLE)x] for a 64-bit integer [x]. *)
Definition to_HANDLE (x : Z) : HANDLE := wrap 64 x.
(** The signed reading of a 32-bit pattern, as [NTSTATUS] has it. *)
Definition to_LONG (x : Z) : Z :=
  let u := wrap 32 x in if u <? 2 ^ 31 then u else u - 2 ^ 32.

Definition STATUS_SUCCESS : NTSTATUS := 0.
Definition STATUS_DEVICE_DOES_NOT_EXIST : NTSTATUS := to_LONG 0xC00000C0.
Definition INVALID_HANDLE_VALUE : HANDLE := to_HANDLE (-1).
Definition NT_SUCCESS (status : NTSTATUS) : bool := 0 <=? status.
Definition MAX_PATH : nat := 260.
Definition REG_SZ : Z := 1.
Definition REG_DWORD : Z := 4.

(** A [std::wstring] / [wchar_t] buffer: a list of 16-bit code units. *)
Definition wstring := list Z.

(** [L "text"] is the wide literal [L"text"]. *)
Definition L (s : string) : wstring :=
  map (fun c => Z.of_N (N_of_ascii c)) (list_ascii_of_string s).

(** [s.c_str()] read as a C string: the units before the first NUL. *)
Fixpoint c_str (s : wstring) : wstring :=
  match s with
  | [] => []
  | c :: s' => if c =? 0 then [] else c :: c_str s'
  end.

(** The bytes of a NUL-terminated wide string, little endian, terminator
    included: what [reinterpret_cast<const BYTE*>(wsz)] exposes for
    [sizeof(WCHAR) * (wcslen(wsz) + 1)] bytes. *)
Definition wide_bytes (s : wstring) : list Z :=
  flat_map (fun c => [c mod 256; (c / 256) mod 256]) (s ++ [0]).

(** A DWORD read from four bytes, little endian. *)
Definition dword_of_bytes (bs : list Z) : Z :=
  match bs with
  | [b0; b1; b2; b3] => b0 mod 256 + 256 * (b1 mod 256) + 65536 * (b2 mod 256)
                        + 16777216 * (b3 mod 256)
  | _ => 0
  end.

(** ** Wire records (BlackBoneDef.h) *)

(** BlackBoneDef.h is not part of the sources at hand: the records below
    carry the fields that DriverControl.cpp assigns or reads, under the names
    it uses. *)

Inductive IoctlCode :=
| IOCTL_BLACKBONE_MAP_MEMORY
| IOCTL_BLACKBONE_MAP_REGION
| IOCTL_BLACKBONE_UNMAP_MEMORY
| IOCTL_BLACKBONE_UNMAP_REGION
| IOCTL_BLACKBONE_DISABLE_DEP
| IOCTL_BLACKBONE_SET_PROTECTION
| IOCTL_BLACKBONE_GRANT_ACCESS
| IOCTL_BLACKBONE_ALLOCATE_FREE_MEMORY
| IOCTL_BLACKBONE_COPY_MEMORY
| IOCTL_BLACKBONE_PROTECT_MEMORY
| IOCTL_BLACKBONE_INJECT_DLL
| IOCTL_BLACKBONE_MAP_DRIVER
| IOCTL_BLACKBONE_HIDE_VAD.

(** The request of each operation, one constructor per request struct, with
    the fields the code assigns.  A fixed-capacity [wchar_t] array is
    represented by the C string it holds. *)
Inductive Request :=
| MAP_MEMORY (pid : Z) (pipeName : wstring) (mapSections : bool)
| MAP_MEMORY_REGION (pid base size : Z)
| UNMAP_MEMORY (pid : Z)
| UNMAP_MEMORY_REGION (pid base size : Z)
| DISABLE_DEP (pid : Z)
| SET_PROC_PROTECTION (pid : Z) (enableState : bool)
| HANDLE_GRANT_ACCESS (pid handle access : Z)
| ALLOCATE_FREE_MEMORY (pid base size type protection : Z) (allocate physical : bool)
| COPY_MEMORY (pid targetPtr localbuf size : Z) (write : bool)
| PROTECT_MEMORY (pid base size newProtection : Z)
| INJECT_DLL (type : Z) (FullDllPath initArg : wstring) (initRVA pid : Z) (wait unlink : bool)
| MMAP_DRIVER (FullPath : wstring)
| HIDE_VAD (pid base size : Z).

Module MAP_ENTRY.
Record t := mk { originalPtr : Z; newPtr : Z; size : Z }.
End MAP_ENTRY.

Module MAP_MEMORY_RESULT.
Record t := mk {
  count : Z;
  hostPage : Z;
  targetPage : Z;
  pipeHandle : Z;
  entries : list MAP_ENTRY.t
}.
Definition zero : t := mk 0 0 0 0 [].
End MAP_MEMORY_RESULT.

Module MAP_MEMORY_REGION_RESULT.
Record t := mk { originalPtr : Z; newPtr : Z; removedPtr : Z; size : Z; removedSize : Z }.
Definition zero : t := mk 0 0 0 0 0.
End MAP_MEMORY_REGION_RESULT.

Module ALLOCATE_FREE_MEMORY_RESULT.
Record t := mk { address : Z; size : Z }.
Definition zero : t := mk 0 0.
End ALLOCATE_FREE_MEMORY_RESULT.

(** ** Caller-visible results (DriverControl.h) *)

(** Modelled from the spec: DriverControl.h, which declares the result
    types, is not at hand.  The mapped region set is a mapping from (original
    address, region size) to the new address, filled with [emplace] on pairs:
    a [std::map<std::pair<ptr_t, uint32_t>, ptr_t>]; next to it the result
    holds the two shared pages and the pipe handle. *)
Abbreviation mapMemoryMap := (gmap (Z * Z) Z).

Module MapMemoryResult.
Record t := mk {
  targetPipe : HANDLE;
  hostSharedPage : Z;
  targetSharedPage : Z;
  regions : mapMemoryMap
}.
End MapMemoryResult.

Module MapMemoryRegionResult.
Record t := mk { originalPtr : Z; newPtr : Z; removedPtr : Z; size : Z; removedSize : Z }.
End MapMemoryRegionResult.

(** ** The operating system as seen by the class *)

(** The output buffer handed to DeviceIoControl (lpOutBuffer, nOutBufferSize). *)
Inductive OutBuf :=
| OutNull                          (* NULL / nullptr, 0 *)
| OutSizeRequired                  (* &sizeRequired, sizeof( sizeRequired ) *)
| OutMapRegionResult               (* &mapResult, sizeof( mapResult ) *)
| OutAllocResult                   (* &result, sizeof( result ) *)
| OutHeap (p : Block) (size : Z).  (* pResult, sizeRequired *)

(** What the driver left in the output buffer, read through the type the
    caller gives the buffer. *)
Inductive Payload :=
| NoPayload
| PayloadULONG (n : Z)
| PayloadMapResult (r : MAP_MEMORY_RESULT.t)
| PayloadRegionResult (r : MAP_MEMORY_REGION_RESULT.t)
| PayloadAllocResult (r : ALLOCATE_FREE_MEMORY_RESULT.t).

Record IoReply := mkIoReply {
  io_ok : bool;            (* the BOOL DeviceIoControl returns *)
  io_bytes : Z;            (* lpBytesReturned *)
  io_out : Payload;        (* contents of the output buffer *)
  io_status : NTSTATUS     (* the thread's last status after a failure *)
}.

(** A registry value: its type tag and its data bytes. *)
Record RegValue := mkRegValue { reg_type : Z; reg_data : list Z }.

Inductive Call :=
| CallCreateFile
| CallCloseHandle (h : HANDLE)
| CallDeviceIoControl (h : HANDLE) (code : IoctlCode) (req : Request) (out : OutBuf)
| CallNtLoadDriver (regPath : wstring)
| CallNtUnloadDriver (regPath : wstring)
| CallRegOpenKey (key subKey : wstring)
| CallRegCreateKey (key subKey : wstring)
| CallRegSetValue (key name : wstring) (v : RegValue)
| CallRegCloseKey (key : wstring)
| CallMalloc (size : Z)
| CallFree (p : Block)
| CallDosPathNameToNtPathName (path : wstring)
| CallRtlFreeUnicodeString.

(** Windows version as VerifyVersionInfoW compares it. *)
Record OSVersion := mkOSVersion { major : N; minor : N; servicePackMajor : N }.

(** Sizes fixed by BlackBoneDef.h, which is not part of the sources at hand:
    the element counts of the [wchar_t] arrays of the request records and the
    sizes of the two fixed result records. *)
Record Layout := mkLayout {
  pipeName_count : nat;       (* MAP_MEMORY::pipeName *)
  FullDllPath_count : nat;    (* INJECT_DLL::FullDllPath *)
  initArg_count : nat;        (* INJECT_DLL::initArg *)
  FullPath_count : nat;       (* MMAP_DRIVER::FullPath *)
  sizeof_MAP_MEMORY_REGION_RESULT : Z;
  sizeof_ALLOCATE_FREE_MEMORY_RESULT : Z
}.

(** The environment: every answer may depend on the calls made so far
    (newest first). *)
Record Env := mkEnv {
  os_version : OSVersion;
  exe_directory : wstring;                     (* Utils::GetExeDirectory() *)
  crt_handler_returns : bool;                  (* invalid-parameter handler replaced by one that returns *)
  stack_after_dwType : Z * Z * Z;              (* the three bytes that follow the BYTE local dwType *)
  env_CreateFile : list Call -> HANDLE * NTSTATUS;
  env_DeviceIoControl : list Call -> HANDLE -> IoctlCode -> Request -> OutBuf -> IoReply;
  env_NtLoadDriver : list Call -> wstring -> NTSTATUS;
  env_NtUnloadDriver : list Call -> wstring -> NTSTATUS;
  env_RegOpenKey : list Call -> wstring -> wstring -> LSTATUS;
  env_RegCreateKey : list Call -> wstring -> wstring -> LSTATUS;
  env_RegSetValue : list Call -> wstring -> wstring -> RegValue -> LSTATUS;
  env_DosPathNameToNtPathName : list Call -> wstring -> option wstring
}.

Record World := mkWorld {
  hDriver : HANDLE;                              (* DriverControl::_hDriver *)
  openHandles : list HANDLE;                     (* device handles opened and not yet closed *)
  heapLive : list Block;                         (* malloc'ed blocks not yet freed *)
  heapNext : Block;
  registry : gmap (wstring * wstring) RegValue;  (* (key path, value name) -> value *)
  lastStatus : NTSTATUS;                         (* the thread's last status value *)
  log : list Call                                (* calls made, newest first *)
}.

Definition set_hDriver (h : HANDLE) (w : World) : World :=
  mkWorld h (openHandles w) (heapLive w) (heapNext w) (registry w) (lastStatus w) (log w).
Definition set_openHandles (hs : list HANDLE) (w : World) : World :=
  mkWorld (hDriver w) hs (heapLive w) (heapNext w) (registry w) (lastStatus w) (log w).
Definition set_heap (live : list Block) (next : Block) (w : World) : World :=
  mkWorld (hDriver w) (openHandles w) live next (registry w) (lastStatus w) (log w).
Definition set_registry (r : gmap (wstring * wstring) RegValue) (w : World) : World :=
  mkWorld (hDriver w) (openHandles w) (heapLive w) (heapNext w) r (lastStatus w) (log w).
Definition set_lastStatus (s : NTSTATUS) (w : World) : World :=
  mkWorld (hDriver w) (openHandles w) (heapLive w) (heapNext w) (registry w) s (log w).
Definition logged (c : Call) (w : World) : World :=
  mkWorld (hDriver w) (openHandles w) (heapLive w) (heapNext w) (registry w) (lastStatus w)
          (c :: log w).

(** Removes one occurrence of [x], as closing a handle or freeing a block
    does. *)
Fixpoint remove_one {A} `{EqDecision A} (x : A) (l : list A) : list A :=
  match l with
  | [] => []
  | y :: l' => if decide (x = y) then l' else y :: remove_one x l'
  end.

(** ** The monad: state, plus termination of the process by the CRT *)

Inductive Outcome (A : Type) :=
| Done (a : A) (w : World)
| Aborted (w : World).
Arguments Done {A} a w.
Arguments Aborted {A} w.

Definition M (A : Type) : Type := World -> Outcome A.

Definition ret {A} (a : A) : M A := fun w => Done a w.
Definition bind {A B} (m : M A) (k : A -> M B) : M B :=
  fun w => match m w with
           | Done a w' => k a w'
           | Aborted w' => Aborted w'
           end.

Notation "'do' x <- m 'in' k" := (bind m (fun x => k))
  (at level 10, x name, m at level 100, k at level 200).
Notation "'run' m 'in' k" := (bind m (fun _ => k))
  (at level 10, m at level 100, k at level 200).

Definition final_world {A} (o : Outcome A) : World :=
  match o with Done _ w => w | Aborted w => w end.

Definition is_ioctl (c : Call) : bool :=
  match c with CallDeviceIoControl _ _ _ _ => true | _ => false end.

(** Number of device-control round trips in a log. *)
Definition ioctl_count (l : list Call) : nat := length (List.filter is_ioctl l).

Section DriverControl.

Variable env : Env.
Variable layout : Layout.

(** ** Primitives *)

Definition get_hDriver : M HANDLE := fun w => Done (hDriver w) w.
Definition put_hDriver (h : HANDLE) : M unit := fun w => Done tt (set_hDriver h w).

(** [CreateFile( BLACKBONE_DEVICE_FILE, ..., OPEN_EXISTING, ... )]: a handle
    other than the sentinel is a new open handle of the process. *)
Definition CreateFile : M HANDLE := fun w =>
  let h := to_HANDLE (fst (env_CreateFile env (log w))) in
  let w1 := logged CallCreateFile w in
  if h =? INVALID_HANDLE_VALUE
  then Done h (set_lastStatus (snd (env_CreateFile env (log w))) w1)
  else Done h (set_openHandles (h :: openHandles w1) w1).

Definition CloseHandle (h : HANDLE) : M unit := fun w =>
  Done tt (set_openHandles (remove_one h (openHandles w)) (logged (CallCloseHandle h) w)).

Definition DeviceIoControl (h : HANDLE) (code : IoctlCode) (req : Request) (out : OutBuf)
  : M IoReply := fun w =>
  let r := env_DeviceIoControl env (log w) h code req out in
  let w1 := logged (CallDeviceIoControl h code req out) w in
  Done r (if io_ok r then w1 else set_lastStatus (io_status r) w1).

(** Modelled from the spec: [LastNtStatus] is declared in Include/Macro.h,
    which is not at hand.  Without an argument it reads the thread's most
    recent status; with one it stores that status and passes it through
    unchanged. *)
Definition LastNtStatus : M NTSTATUS := fun w => Done (lastStatus w) w.
Definition LastNtStatus_set (status : NTSTATUS) : M NTSTATUS :=
  fun w => Done status (set_lastStatus status w).

Definition NtLoadDriver (regPath : wstring) : M NTSTATUS := fun w =>
  Done (env_NtLoadDriver env (log w) regPath) (logged (CallNtLoadDriver regPath) w).

Definition NtUnloadDriver (regPath : wstring) : M NTSTATUS := fun w =>
  Done (env_NtUnloadDriver env (log w) regPath) (logged (CallNtUnloadDriver regPath) w).

(** A registry key handle is represented by the path of the key. *)
Definition HKEY_LOCAL_MACHINE : wstring := L "HKEY_LOCAL_MACHINE".
Definition subkey (key sub : wstring) : wstring := key ++ L "\" ++ sub.

Definition RegOpenKeyW (key sub : wstring) : M (LSTATUS * wstring) := fun w =>
  Done (env_RegOpenKey env (log w) key sub, subkey key sub) (logged (CallRegOpenKey key sub) w).

Definition RegCreateKeyW (key sub : wstring) : M (LSTATUS * wstring) := fun w =>
  Done (env_RegCreateKey env (log w) key sub, subkey key sub)
       (logged (CallRegCreateKey key sub) w).

Definition RegSetValueExW (key name : wstring) (type : Z) (data : list Z) : M LSTATUS := fun w =>
  let v := mkRegValue type data in
  let status := env_RegSetValue env (log w) key name v in
  let w1 := logged (CallRegSetValue key name v) w in
  Done status (if status =? 0 then set_registry (<[(key, name) := v]> (registry w1)) w1 else w1).

Definition RegCloseKey (key : wstring) : M unit := fun w =>
  Done tt (logged (CallRegCloseKey key) w).

Definition malloc (size : Z) : M Block := fun w =>
  let p := heapNext w in
  Done p (set_heap (p :: heapLive w) (S p) (logged (CallMalloc size) w)).

Definition free (p : Block) : M unit := fun w =>
  Done tt (set_heap (remove_one p (heapLive w)) (heapNext w) (logged (CallFree p) w)).

(** The CRT's invalid-parameter handler: the default one ends the process; a
    replacement installed by the host may return. *)
Definition invalid_parameter : M unit := fun w =>
  if crt_handler_returns env then Done tt w else Aborted w.

(** [wcscpy_s( dest, src )] on an array of [count] elements; the result is
    the C string the array holds afterwards.  A source that does not fit with
    its terminator is not cut: the handler runs and, if it returns, the array
    holds the empty string. *)
Definition wcscpy_s (count : nat) (src : wstring) : M wstring :=
  if (length src <? count)%nat then ret src
  else run invalid_parameter in ret [].

(** [wcscpy_s] with a null source pointer. *)
Definition wcscpy_s_null : M wstring := run invalid_parameter in ret [].

(** [swprintf_s( buffer, count, ... )] given the formatted text: the same
    rule as [wcscpy_s]. *)
Definition swprintf_s (count : nat) (text : wstring) : M wstring :=
  if (length text <? count)%nat then ret text
  else run invalid_parameter in ret [].

(** [RtlDosPathNameToNtPathName_U] followed by the read of [ustr.Buffer]. *)
Definition RtlDosPathNameToNtPathName_U (path : wstring) : M (option wstring) := fun w =>
  Done (env_DosPathNameToNtPathName env (log w) path) (logged (CallDosPathNameToNtPathName path) w).

Definition RtlFreeUnicodeString : M unit := fun w =>
  Done tt (logged CallRtlFreeUnicodeString w).

(** VersionHelpers.h: [IsWindowsVersionOrGreater] compares major, minor and
    service pack with VER_GREATER_EQUAL, most significant first. *)
Definition IsWindowsVersionOrGreater (wMajor wMinor wSP : N) (v : OSVersion) : bool :=
  (wMajor <? major v)%N
  || ((major v =? wMajor)%N
      && ((wMinor <? minor v)%N
          || ((minor v =? wMinor)%N && (wSP <=? servicePackMajor v)%N))).

Definition IsWindows7OrGreater := IsWindowsVersionOrGreater 6 1 0.
Definition IsWindows8OrGreater := IsWindowsVersionOrGreater 6 2 0.
Definition IsWindows8Point1OrGreater := IsWindowsVersionOrGreater 6 3 0.

(** ** Service registration and driver start *)

Definition DRIVER_SVC_NAME : wstring := L "BlackBone".

(** The four bytes RegSetValueExW reads at [&dwType] for [sizeof( DWORD )]:
    the [BYTE] local itself and the three bytes after it. *)
Definition bytes_at_dwType : list Z :=
  let '(b1, b2, b3) := stack_after_dwType env in [1; b1 mod 256; b2 mod 256; b3 mod 256].

Definition PrepareDriverRegEntry (svcName path : wstring) : M LSTATUS :=
  do wszLocalPath <- swprintf_s MAX_PATH (L "\??\" ++ c_str path) in
  do r1 <- RegOpenKeyW HKEY_LOCAL_MACHINE (L "system\CurrentControlSet\Services") in
  let '(status, key1) := r1 in
  if negb (status =? 0) then ret status else
  do r2 <- RegCreateKeyW key1 (c_str svcName) in
  let '(status, key2) := r2 in
  if negb (status =? 0) then
    run RegCloseKey key1 in ret status
  else
  do status <- RegSetValueExW key2 (L "ImagePath") REG_SZ (wide_bytes wszLocalPath) in
  if negb (status =? 0) then
    run RegCloseKey key2 in run RegCloseKey key1 in ret status
  else
  do status <- RegSetValueExW key2 (L "Type") REG_DWORD bytes_at_dwType in
  if negb (status =? 0) then
    run RegCloseKey key2 in run RegCloseKey key1 in ret status
  else
  run RegCloseKey key2 in run RegCloseKey key1 in ret status.

Definition service_regPath (svcName : wstring) : wstring :=
  L "\registry\machine\SYSTEM\CurrentControlSet\Services\" ++ svcName.

Definition LoadDriver (svcName path : wstring) : M NTSTATUS :=
  do failed <- (if negb (bool_decide (path = []))
                then do st <- PrepareDriverRegEntry svcName path in ret (negb (st =? 0))
                else ret false) in
  if failed : bool then LastNtStatus
  else NtLoadDriver (c_str (service_regPath svcName)).

Definition UnloadDriver (svcName : wstring) : M NTSTATUS :=
  NtUnloadDriver (c_str (service_regPath svcName)).

(** ** Lifecycle *)

Definition Unload : M NTSTATUS :=
  do h <- get_hDriver in
  run (if negb (h =? INVALID_HANDLE_VALUE)
       then run CloseHandle h in put_hDriver INVALID_HANDLE_VALUE
       else ret tt) in
  UnloadDriver DRIVER_SVC_NAME.

(** The file name [Reload] picks when no path is given. *)
Definition default_filename (v : OSVersion) : wstring :=
  if IsWindows8Point1OrGreater v then L "BlackBoneDrv81.sys"
  else if IsWindows8OrGreater v then L "BlackBoneDrv8.sys"
  else if IsWindows7OrGreater v then L "BlackBoneDrv7.sys"
  else L "BlackBoneDrv.sys".

Definition default_path : wstring :=
  exe_directory env ++ L "\" ++ default_filename (os_version env).

Definition Reload (path : wstring) : M NTSTATUS :=
  run Unload in
  let path := if bool_decide (path = []) then default_path else path in
  do status <- LoadDriver DRIVER_SVC_NAME path in
  if negb (NT_SUCCESS status) then LastNtStatus_set status
  else
  do h <- CreateFile in
  run put_hDriver h in
  if h =? INVALID_HANDLE_VALUE then LastNtStatus
  else ret STATUS_SUCCESS.

Definition EnsureLoaded (path : wstring) : M NTSTATUS :=
  do h <- get_hDriver in
  if negb (h =? INVALID_HANDLE_VALUE) then ret STATUS_SUCCESS
  else
  do h <- CreateFile in
  run put_hDriver h in
  if negb (h =? INVALID_HANDLE_VALUE) then ret STATUS_SUCCESS
  else Reload path.

(** ** Commands *)

Definition as_ULONG (p : Payload) : Z :=
  match p with PayloadULONG n => to_ULONG n | _ => 0 end.
Definition as_MAP_MEMORY_RESULT (p : Payload) : MAP_MEMORY_RESULT.t :=
  match p with PayloadMapResult r => r | _ => MAP_MEMORY_RESULT.zero end.
Definition as_MAP_MEMORY_REGION_RESULT (p : Payload) : MAP_MEMORY_REGION_RESULT.t :=
  match p with PayloadRegionResult r => r | _ => MAP_MEMORY_REGION_RESULT.zero end.
Definition as_ALLOCATE_FREE_MEMORY_RESULT (p : Payload) : ALLOCATE_FREE_MEMORY_RESULT.t :=
  match p with PayloadAllocResult r => r | _ => ALLOCATE_FREE_MEMORY_RESULT.zero end.

(** [std::map::emplace]: inserts only when the key is absent. *)
Definition emplace (k : Z * Z) (v : Z) (m : mapMemoryMap) : mapMemoryMap :=
  match m !! k with
  | Some _ => m
  | None => <[k := v]> m
  end.

(** The loop [for (ULONG i = 0; i < pResult->count; i++) regions.emplace( ... )]. *)
Fixpoint emplace_entries (es : list MAP_ENTRY.t) (m : mapMemoryMap) : mapMemoryMap :=
  match es with
  | [] => m
  | e :: es' =>
      emplace_entries es'
        (emplace (MAP_ENTRY.originalPtr e, MAP_ENTRY.size e) (MAP_ENTRY.newPtr e) m)
  end.

Definition fill_MapMemoryResult (pResult : MAP_MEMORY_RESULT.t) (result : MapMemoryResult.t)
  : MapMemoryResult.t :=
  MapMemoryResult.mk
    (to_HANDLE (MAP_MEMORY_RESULT.pipeHandle pResult))
    (MAP_MEMORY_RESULT.hostPage pResult)
    (MAP_MEMORY_RESULT.targetPage pResult)
    (emplace_entries
       (take (Z.to_nat (MAP_MEMORY_RESULT.count pResult)) (MAP_MEMORY_RESULT.entries pResult))
       (MapMemoryResult.regions result)).

Definition MapMemory (pid : Z) (pipeName : wstring) (mapSections : bool)
  (result : MapMemoryResult.t) : M (NTSTATUS * MapMemoryResult.t) :=
  do h <- get_hDriver in
  if h =? INVALID_HANDLE_VALUE then ret (STATUS_DEVICE_DOES_NOT_EXIST, result)
  else
  do name <- wcscpy_s (pipeName_count layout) (c_str pipeName) in
  let data := MAP_MEMORY pid name mapSections in
  do res <- DeviceIoControl h IOCTL_BLACKBONE_MAP_MEMORY data OutSizeRequired in
  let sizeRequired := as_ULONG (io_out res) in
  if io_ok res && (io_bytes res =? 4) then
    do pResult <- malloc sizeRequired in
    do res2 <- DeviceIoControl h IOCTL_BLACKBONE_MAP_MEMORY data (OutHeap pResult sizeRequired) in
    if io_ok res2 then
      let result' := fill_MapMemoryResult (as_MAP_MEMORY_RESULT (io_out res2)) result in
      run free pResult in
      ret (STATUS_SUCCESS, result')
    else
      do st <- LastNtStatus in ret (st, result)
  else
    do st <- LastNtStatus in ret (st, result).

Definition MapMemoryRegion (pid base size : Z) (result : MapMemoryRegionResult.t)
  : M (NTSTATUS * MapMemoryRegionResult.t) :=
  do h <- get_hDriver in
  if h =? INVALID_HANDLE_VALUE then ret (STATUS_DEVICE_DOES_NOT_EXIST, result)
  else
  do res <- DeviceIoControl h IOCTL_BLACKBONE_MAP_REGION (MAP_MEMORY_REGION pid base size)
              OutMapRegionResult in
  if io_ok res then
    let mapResult := as_MAP_MEMORY_REGION_RESULT (io_out res) in
    ret (STATUS_SUCCESS,
         MapMemoryRegionResult.mk
           (MAP_MEMORY_REGION_RESULT.originalPtr mapResult)
           (MAP_MEMORY_REGION_RESULT.newPtr mapResult)
           (MAP_MEMORY_REGION_RESULT.removedPtr mapResult)
           (MAP_MEMORY_REGION_RESULT.size mapResult)
           (MAP_MEMORY_REGION_RESULT.removedSize mapResult))
  else
    do st <- LastNtStatus in ret (st, result).

(** The shape shared by the commands without a result: guard, one round
    trip with no output buffer, status. *)
Definition simple_command (code : IoctlCode) (req : Request) (out : OutBuf) : M NTSTATUS :=
  do h <- get_hDriver in
  if h =? INVALID_HANDLE_VALUE then ret STATUS_DEVICE_DOES_NOT_EXIST
  else
  do res <- DeviceIoControl h code req out in
  if io_ok res then ret STATUS_SUCCESS else LastNtStatus.

Definition UnmapMemory (pid : Z) : M NTSTATUS :=
  simple_command IOCTL_BLACKBONE_UNMAP_MEMORY (UNMAP_MEMORY pid) OutNull.

Definition UnmapMemoryRegion (pid base size : Z) : M NTSTATUS :=
  simple_command IOCTL_BLACKBONE_UNMAP_REGION (UNMAP_MEMORY_REGION pid base size) OutNull.

Definition DisableDEP (pid : Z) : M NTSTATUS :=
  simple_command IOCTL_BLACKBONE_DISABLE_DEP (DISABLE_DEP pid) OutNull.

Definition ProtectProcess (pid : Z) (enable : bool) : M NTSTATUS :=
  simple_command IOCTL_BLACKBONE_SET_PROTECTION (SET_PROC_PROTECTION pid enable) OutNull.

Definition PromoteHandle (pid : Z) (handle : HANDLE) (access : Z) : M NTSTATUS :=
  simple_command IOCTL_BLACKBONE_GRANT_ACCESS
    (HANDLE_GRANT_ACCESS pid (to_ULONGLONG handle) access) OutNull.

Definition AllocateMem (pid base size type protection : Z) (physical : bool)
  : M (NTSTATUS * Z * Z) :=
  let allocMem := ALLOCATE_FREE_MEMORY pid base size type protection true physical in
  do h <- get_hDriver in
  if h =? INVALID_HANDLE_VALUE then ret (STATUS_DEVICE_DOES_NOT_EXIST, base, size)
  else
  do res <- DeviceIoControl h IOCTL_BLACKBONE_ALLOCATE_FREE_MEMORY allocMem OutAllocResult in
  if negb (io_ok res) then
    do st <- LastNtStatus in ret (st, 0, 0)
  else
    let result := as_ALLOCATE_FREE_MEMORY_RESULT (io_out res) in
    ret (STATUS_SUCCESS,
         ALLOCATE_FREE_MEMORY_RESULT.address result,
         ALLOCATE_FREE_MEMORY_RESULT.size result).

Definition FreeMem (pid base size type : Z) : M NTSTATUS :=
  simple_command IOCTL_BLACKBONE_ALLOCATE_FREE_MEMORY
    (ALLOCATE_FREE_MEMORY pid base size type 0 false false) OutAllocResult.

Definition ReadMem (pid base size buffer : Z) : M NTSTATUS :=
  simple_command IOCTL_BLACKBONE_COPY_MEMORY
    (COPY_MEMORY pid base (to_ULONGLONG buffer) size false) OutNull.

Definition WriteMem (pid base size buffer : Z) : M NTSTATUS :=
  simple_command IOCTL_BLACKBONE_COPY_MEMORY
    (COPY_MEMORY pid base (to_ULONGLONG buffer) size true) OutNull.

Definition ProtectMem (pid base size protection : Z) : M NTSTATUS :=
  simple_command IOCTL_BLACKBONE_PROTECT_MEMORY (PROTECT_MEMORY pid base size protection) OutNull.

Definition InjectDll (pid : Z) (path : wstring) (itype initRVA : Z) (initArg : wstring)
  (unlink wait : bool) : M NTSTATUS :=
  do h <- get_hDriver in
  if h =? INVALID_HANDLE_VALUE then ret STATUS_DEVICE_DOES_NOT_EXIST
  else
  do FullDllPath <- wcscpy_s (FullDllPath_count layout) (c_str path) in
  do arg <- wcscpy_s (initArg_count layout) (c_str initArg) in
  let data := INJECT_DLL itype FullDllPath arg initRVA pid wait unlink in
  do res <- DeviceIoControl h IOCTL_BLACKBONE_INJECT_DLL data OutNull in
  if io_ok res then ret STATUS_SUCCESS else LastNtStatus.

Definition MMapDriver (path : wstring) : M NTSTATUS :=
  do h <- get_hDriver in
  if h =? INVALID_HANDLE_VALUE then ret STATUS_DEVICE_DOES_NOT_EXIST
  else
  do ustr <- RtlDosPathNameToNtPathName_U (c_str path) in
  do FullPath <- match ustr with
                 | Some buffer => wcscpy_s (FullPath_count layout) (c_str buffer)
                 | None => wcscpy_s_null
                 end in
  run RtlFreeUnicodeString in
  do res <- DeviceIoControl h IOCTL_BLACKBONE_MAP_DRIVER (MMAP_DRIVER FullPath) OutNull in
  if io_ok res then ret STATUS_SUCCESS else LastNtStatus.

Definition ConcealVAD (pid base size : Z) : M NTSTATUS :=
  simple_command IOCTL_BLACKBONE_HIDE_VAD (HIDE_VAD pid base size) OutNull.

(** [nOutBufferSize] of each output buffer. *)
Definition nOutBufferSize (out : OutBuf) : Z :=
  match out with
  | OutNull => 0
  | OutSizeRequired => 4
  | OutMapRegionResult => sizeof_MAP_MEMORY_REGION_RESULT layout
  | OutAllocResult => sizeof_ALLOCATE_FREE_MEMORY_RESULT layout
  | OutHeap _ size => size
  end.

(** ** The public interface as a tagged union of calls *)

Inductive Command :=
| CmdMapMemory (pid : Z) (pipeName : wstring) (mapSections : bool) (result : MapMemoryResult.t)
| CmdMapMemoryRegion (pid base size : Z) (result : MapMemoryRegionResult.t)
| CmdUnmapMemory (pid : Z)
| CmdUnmapMemoryRegion (pid base size : Z)
| CmdDisableDEP (pid : Z)
| CmdProtectProcess (pid : Z) (enable : bool)
| CmdPromoteHandle (pid : Z) (handle : HANDLE) (access : Z)
| CmdAllocateMem (pid base size type protection : Z) (physical : bool)
| CmdFreeMem (pid base size type : Z)
| CmdReadMem (pid base size buffer : Z)
| CmdWriteMem (pid base size buffer : Z)
| CmdProtectMem (pid base size protection : Z)
| CmdInjectDll (pid : Z) (path : wstring) (itype initRVA : Z) (initArg : wstring)
    (unlink wait : bool)
| CmdMMapDriver (path : wstring)
| CmdConcealVAD (pid base size : Z).

(** What the caller holds after a command: the status and the values of the
    reference parameters. *)
Inductive Output :=
| OutStatus
| OutMapMemory (result : MapMemoryResult.t)
| OutMapMemoryRegion (result : MapMemoryRegionResult.t)
| OutAllocateMem (base size : Z).

Definition only_status (m : M NTSTATUS) : M (NTSTATUS * Output) :=
  do st <- m in ret (st, OutStatus).

Definition run_command (c : Command) : M (NTSTATUS * Output) :=
  match c with
  | CmdMapMemory pid pipeName mapSections result =>
      do r <- MapMemory pid pipeName mapSections result in ret (fst r, OutMapMemory (snd r))
  | CmdMapMemoryRegion pid base size result =>
      do r <- MapMemoryRegion pid base size result in ret (fst r, OutMapMemoryRegion (snd r))
  | CmdUnmapMemory pid => only_status (UnmapMemory pid)
  | CmdUnmapMemoryRegion pid base size => only_status (UnmapMemoryRegion pid base size)
  | CmdDisableDEP pid => only_status (DisableDEP pid)
  | CmdProtectProcess pid enable => only_status (ProtectProcess pid enable)
  | CmdPromoteHandle pid handle access => only_status (PromoteHandle pid handle access)
  | CmdAllocateMem pid base size type protection physical =>
      do r <- AllocateMem pid base size type protection physical in
      let '(st, b, s) := r in ret (st, OutAllocateMem b s)
  | CmdFreeMem pid base size type => only_status (FreeMem pid base size type)
  | CmdReadMem pid base size buffer => only_status (ReadMem pid base size buffer)
  | CmdWriteMem pid base size buffer => only_status (WriteMem pid base size buffer)
  | CmdProtectMem pid base size protection => only_status (ProtectMem pid base size protection)
  | CmdInjectDll pid path itype initRVA initArg unlink wait =>
      only_status (InjectDll pid path itype initRVA initArg unlink wait)
  | CmdMMapDriver path => only_status (MMapDriver path)
  | CmdConcealVAD pid base size => only_status (ConcealVAD pid base size)
  end.

(** The reference parameters as the caller passed them in. *)
Definition inputs_of (c : Command) : Output :=
  match c with
  | CmdMapMemory _ _ _ result => OutMapMemory result
  | CmdMapMemoryRegion _ _ _ result => OutMapMemoryRegion result
  | CmdAllocateMem _ base size _ _ _ => OutAllocateMem base size
  | _ => OutStatus
  end.

Inductive Operation :=
| OpEnsureLoaded (path : wstring)
| OpReload (path : wstring)
| OpUnload
| OpCommand (c : Command).

Definition run_operation (op : Operation) : M NTSTATUS :=
  match op with
  | OpEnsureLoaded path => EnsureLoaded path
  | OpReload path => Reload path
  | OpUnload => Unload
  | OpCommand c => do r <- run_command c in ret (fst r)
  end.

End DriverControl.

(** Modelled from the spec: the initialiser of [_hDriver] is in
    DriverControl.h, which is not at hand; the handle is created by a
    successful load or open, so a fresh object is not loaded. *)
Definition initial_world : World :=
  mkWorld INVALID_HANDLE_VALUE [] [] 0%nat ∅ 0 [].

(** Round trips made by a run that started in [w]. *)
Definition round_trips {A} (w : World) (o : Outcome A) : nat :=
  (ioctl_count (log (final_world o)) - ioctl_count (log w))%nat.

(** The calls a run added to the log of [w], newest first. *)
Definition new_calls {A} (w : World) (o : Outcome A) : list Call :=
  take (length (log (final_world o)) - length (log w))%nat (log (final_world o)).

Definition request_of (c : Call) : option Request :=
  match c with CallDeviceIoControl _ _ req _ => Some req | _ => None end.

(** The requests sent by a run, oldest first. *)
Definition requests_sent {A} (w : World) (o : Outcome A) : list Request :=
  omap request_of (rev (new_calls w o)).

(** The extension handle is either the sentinel, with no device handle open,
    or the one device handle that is open. *)
Definition handle_inv (w : World) : Prop :=
  openHandles w = if hDriver w =? INVALID_HANDLE_VALUE then [] else [hDriver w].

(** ** Notions used in the statements *)

(** A computation that leaves the handle field and the open handles alone. *)
Definition keeps_handles {A} (m : M A) : Prop :=
  forall w, hDriver (final_world (m w)) = hDriver w
            /\ openHandles (final_world (m w)) = openHandles w.

Definition preserves_inv {A} (m : M A) : Prop :=
  forall w, handle_inv w -> handle_inv (final_world (m w)).

(** The registry path [Unload] hands to NtUnloadDriver. *)
Definition stop_path : wstring := c_str (service_regPath DRIVER_SVC_NAME).

(** The world once [Unload] has dealt with the handle. *)
Definition closed (w : World) : World :=
  if hDriver w =? INVALID_HANDLE_VALUE then w
  else set_hDriver INVALID_HANDLE_VALUE
         (set_openHandles (remove_one (hDriver w) (openHandles w))
            (logged (CallCloseHandle (hDriver w)) w)).

Definition tier_names : list wstring :=
  [L "BlackBoneDrv81.sys"; L "BlackBoneDrv8.sys"; L "BlackBoneDrv7.sys"; L "BlackBoneDrv.sys"].

(** The two round trips of [MapMemory] when the handle is open and the pipe
    name [name] fits its field: the probe, and the fetch into the block that
    [malloc] returns. *)
Definition map_key (e : MAP_ENTRY.t) : Z * Z := (MAP_ENTRY.originalPtr e, MAP_ENTRY.size e).

Definition probe_call (w : World) (pid : Z) (name : wstring) (ms : bool) : Call :=
  CallDeviceIoControl (hDriver w) IOCTL_BLACKBONE_MAP_MEMORY (MAP_MEMORY pid name ms)
    OutSizeRequired.

Definition probe_reply (env : Env) (w : World) (pid : Z) (name : wstring) (ms : bool) : IoReply :=
  env_DeviceIoControl env (log w) (hDriver w) IOCTL_BLACKBONE_MAP_MEMORY
    (MAP_MEMORY pid name ms) OutSizeRequired.

Definition size_hint (env : Env) (w : World) (pid : Z) (name : wstring) (ms : bool) : Z :=
  as_ULONG (io_out (probe_reply env w pid name ms)).

Definition fetch_call (env : Env) (w : World) (pid : Z) (name : wstring) (ms : bool) : Call :=
  CallDeviceIoControl (hDriver w) IOCTL_BLACKBONE_MAP_MEMORY (MAP_MEMORY pid name ms)
    (OutHeap (heapNext w) (size_hint env w pid name ms)).

Definition fetch_reply (env : Env) (w : World) (pid : Z) (name : wstring) (ms : bool) : IoReply :=
  env_DeviceIoControl env
    (CallMalloc (size_hint env w pid name ms) :: probe_call w pid name ms :: log w)
    (hDriver w) IOCTL_BLACKBONE_MAP_MEMORY (MAP_MEMORY pid name ms)
    (OutHeap (heapNext w) (size_hint env w pid name ms)).

(** The registry key of a service, as [PrepareDriverRegEntry] reaches it. *)
Definition services_key : wstring :=
  subkey HKEY_LOCAL_MACHINE (L "system\CurrentControlSet\Services").
Definition service_key (svcName : wstring) : wstring := subkey services_key (c_str svcName).

(** ** Further notions: teardown, decoding, call classes *)

(** [~DriverControl()]: the destructor only calls [Unload]. *)
Definition destructor (env : Env) : M NTSTATUS := Unload env.

(** Reads a NUL-terminated little-endian wide string back from bytes, as a
    reader of a REG_SZ value does. *)
Fixpoint wstring_of_bytes (bs : list Z) : wstring :=
  match bs with
  | lo :: hi :: rest =>
      let c := lo + 256 * hi in
      if c =? 0 then [] else c :: wstring_of_bytes rest
  | _ => []
  end.

(** A 16-bit code unit other than NUL. *)
Definition wchar_nonzero (c : Z) : Prop := 0 < c < 65536.

(** The calls a command may make: the channel, the heap and the path
    conversion; never the device open/close, the loader or the registry. *)
Definition is_channel_side (c : Call) : Prop :=
  match c with
  | CallDeviceIoControl _ _ _ _ | CallMalloc _ | CallFree _
  | CallDosPathNameToNtPathName _ | CallRtlFreeUnicodeString => True
  | _ => False
  end.

(** A computation whose calls all satisfy [P]; the log only grows. *)
Definition emits (P : Call -> Prop) {A} (m : M A) : Prop :=
  forall w, exists pre, log (final_world (m w)) = pre ++ log w /\ Forall P pre.

Definition keeps_registry {A} (m : M A) : Prop :=
  forall w, registry (final_world (m w)) = registry w.

Definition is_close_key (c : Call) : bool :=
  match c with CallRegCloseKey _ => true | _ => false end.

Definition is_set_value (c : Call) : bool :=
  match c with CallRegSetValue _ _ _ => true | _ => false end.

Definition is_MapMemory (c : Command) : bool :=
  match c with CmdMapMemory _ _ _ _ => true | _ => false end.


(** ** Scripted environments for the examples *)

(** The array sizes and record sizes of the driver header as shipped. *)
Definition shipped_layout : Layout := mkLayout 32 512 512 512 32 16.

(** Nothing is reachable: no device, every call fails. *)
Definition dead_env : Env :=
  mkEnv (mkOSVersion 6 1 0) (L "C:\bb") false (0, 0, 0)
    (fun _ => (INVALID_HANDLE_VALUE, to_LONG 0xC0000034))
    (fun _ _ _ _ _ => mkIoReply false 0 NoPayload (to_LONG 0xC0000001))
    (fun _ _ => to_LONG 0xC0000034)
    (fun _ _ => to_LONG 0xC0000034)
    (fun _ _ _ => 5) (fun _ _ _ => 5) (fun _ _ _ _ => 5)
    (fun _ _ => None).

(** The driver is running: the device opens as handle [0x44] and every
    request is answered by [reply]. *)
Definition live_env (reply : list Call -> Request -> OutBuf -> IoReply) : Env :=
  mkEnv (mkOSVersion 10 0 0) (L "C:\bb") false (0, 0, 0)
    (fun _ => (0x44, 0))
    (fun hist _ _ req out => reply hist req out)
    (fun _ _ => 0)
    (fun _ _ => 0)
    (fun _ _ _ => 0) (fun _ _ _ => 0) (fun _ _ _ _ => 0)
    (fun _ path => Some (L "\??\" ++ path)).

Definition loaded_world : World :=
  mkWorld 0x44 [0x44] [] 0%nat ∅ 0 [].

(** A running driver that accepts, respectively refuses, every request. *)
Definition ok_env : Env := live_env (fun _ _ _ => mkIoReply true 0 NoPayload 0).
Definition failing_env : Env :=
  live_env (fun _ _ _ => mkIoReply false 0 NoPayload (to_LONG 0xC0000017)).

(** A fake channel for [MapMemory]: the probe reports a 4-byte size hint of
    [hint]; the fetch either delivers [r] or fails with STATUS_NO_MEMORY. *)
Definition map_channel (hint : Z) (r : option MAP_MEMORY_RESULT.t)
  (hist : list Call) (req : Request) (out : OutBuf) : IoReply :=
  match out with
  | OutSizeRequired => mkIoReply true 4 (PayloadULONG hint) 0
  | OutHeap _ _ =>
      match r with
      | Some r => mkIoReply true hint (PayloadMapResult r) 0
      | None => mkIoReply false 0 NoPayload (to_LONG 0xC0000017)
      end
  | _ => mkIoReply false 0 NoPayload (to_LONG 0xC0000010)
  end.

(** One mapped region, 0x1000 (size 0x10) now at 0x5000. *)
Definition one_region : MAP_MEMORY_RESULT.t :=
  MAP_MEMORY_RESULT.mk 1 0x7000 0x8000 0x1c [MAP_ENTRY.mk 0x1000 0x5000 0x10].

(** A result object left over from an earlier call. *)
Definition stale_result : MapMemoryResult.t :=
  MapMemoryResult.mk 0 0 0 (<[(0x1000, 0x10) := 0x9000]> (<[(0x2000, 0x10) := 0xA000]> ∅)).

Definition fresh_result : MapMemoryResult.t := MapMemoryResult.mk 0 0 0 ∅.

(** A debug build on a machine where every registry call succeeds: the
    bytes after [dwType] hold the 0xCC fill pattern of fresh stack memory. *)
Definition debug_env : Env :=
  mkEnv (mkOSVersion 6 1 0) (L "C:\bb") false (0xCC, 0xCC, 0xCC)
    (fun _ => (0x44, 0))
    (fun _ _ _ _ _ => mkIoReply true 0 NoPayload 0)
    (fun _ _ => 0)
    (fun _ _ => 0)
    (fun _ _ _ => 0) (fun _ _ _ => 0) (fun _ _ _ _ => 0)
    (fun _ path => Some (L "\??\" ++ path)).



(** ** Basic facts *)

Lemma INVALID_HANDLE_VALUE_eq : INVALID_HANDLE_VALUE = 18446744073709551615.
Proof. reflexivity. Qed.

Lemma STATUS_DEVICE_DOES_NOT_EXIST_eq : STATUS_DEVICE_DOES_NOT_EXIST = -1073741632.
Proof. reflexivity. Qed.

Lemma not_loaded_is_failure : NT_SUCCESS STATUS_DEVICE_DOES_NOT_EXIST = false.
Proof. reflexivity. Qed.

Lemma initial_world_inv : handle_inv initial_world.
Proof. reflexivity. Qed.

Lemma eqb_sentinel_false (h : HANDLE) :
  h <> INVALID_HANDLE_VALUE -> (h =? INVALID_HANDLE_VALUE) = false.
Proof. intros H. now apply Z.eqb_neq. Qed.

Lemma simple_command_not_loaded env code req out w :
  hDriver w = INVALID_HANDLE_VALUE ->
  simple_command env code req out w = Done STATUS_DEVICE_DOES_NOT_EXIST w.
Proof.
  intros H. unfold simple_command, bind, get_hDriver. now rewrite H.
Qed.

(** C1. Every command called while the handle is the not-loaded sentinel
    returns STATUS_DEVICE_DOES_NOT_EXIST at once: the world, and with it the
    log of calls, is unchanged, the reference parameters are as passed in,
    and no device-control round trip is made. *)
Theorem not_loaded_rejected env layout (c : Command) (w : World) :
  hDriver w = INVALID_HANDLE_VALUE ->
  run_command env layout c w = Done (STATUS_DEVICE_DOES_NOT_EXIST, inputs_of c) w
  /\ round_trips w (run_command env layout c w) = 0%nat.
Proof.
  intros H.
  assert (E : run_command env layout c w
              = Done (STATUS_DEVICE_DOES_NOT_EXIST, inputs_of c) w).
  { destruct c; cbn [run_command inputs_of]; unfold only_status, bind;
      try (unfold UnmapMemory, UnmapMemoryRegion, DisableDEP, ProtectProcess,
             PromoteHandle, FreeMem, ReadMem, WriteMem, ProtectMem, ConcealVAD;
           now rewrite simple_command_not_loaded);
      unfold MapMemory, MapMemoryRegion, AllocateMem, InjectDll, MMapDriver,
        bind, get_hDriver; now rewrite H. }
  split; [exact E|].
  rewrite E. unfold round_trips. cbn. lia.
Qed.

Lemma not_loaded_rejected_witness :
  run_command dead_env shipped_layout
    (CmdInjectDll 1234 (L "C:\payload.dll") 0 0 [] false true) initial_world
  = Done (STATUS_DEVICE_DOES_NOT_EXIST, OutStatus) initial_world
  /\ round_trips initial_world
       (run_command dead_env shipped_layout
          (CmdInjectDll 1234 (L "C:\payload.dll") 0 0 [] false true) initial_world) = 0%nat.
Proof.
  apply (not_loaded_rejected dead_env shipped_layout
           (CmdInjectDll 1234 (L "C:\payload.dll") 0 0 [] false true) initial_world).
  reflexivity.
Defined.

(** ** Frame: what leaves the handle alone *)


Lemma final_world_bind {A B} (m : M A) (k : A -> M B) w :
  final_world (bind m k w)
  = match m w with
    | Done a w' => final_world (k a w')
    | Aborted w' => w'
    end.
Proof. unfold bind. now destruct (m w). Qed.

Lemma keeps_ret {A} (a : A) : keeps_handles (ret a).
Proof. now intros w. Qed.

Lemma keeps_bind {A B} (m : M A) (k : A -> M B) :
  keeps_handles m -> (forall a, keeps_handles (k a)) -> keeps_handles (bind m k).
Proof.
  intros Hm Hk w. rewrite final_world_bind.
  specialize (Hm w). destruct (m w) as [a w'|w']; cbn in Hm.
  - destruct (Hk a w') as [E1 E2]. destruct Hm as [F1 F2]. split; congruence.
  - exact Hm.
Qed.

Lemma keeps_if {A} (b : bool) (m1 m2 : M A) :
  keeps_handles m1 -> keeps_handles m2 -> keeps_handles (if b then m1 else m2).
Proof. now destruct b. Qed.

Lemma keeps_get_hDriver : keeps_handles get_hDriver.
Proof. now intros w. Qed.

Lemma keeps_DeviceIoControl env h code req out :
  keeps_handles (DeviceIoControl env h code req out).
Proof. intros w. unfold DeviceIoControl. cbn. now destruct (io_ok _). Qed.

Lemma keeps_LastNtStatus : keeps_handles LastNtStatus.
Proof. now intros w. Qed.

Lemma keeps_LastNtStatus_set s : keeps_handles (LastNtStatus_set s).
Proof. now intros w. Qed.

Lemma keeps_NtLoadDriver env p : keeps_handles (NtLoadDriver env p).
Proof. now intros w. Qed.

Lemma keeps_NtUnloadDriver env p : keeps_handles (NtUnloadDriver env p).
Proof. now intros w. Qed.

Lemma keeps_RegOpenKeyW env k s : keeps_handles (RegOpenKeyW env k s).
Proof. now intros w. Qed.

Lemma keeps_RegCreateKeyW env k s : keeps_handles (RegCreateKeyW env k s).
Proof. now intros w. Qed.

Lemma keeps_RegSetValueExW env k n t d : keeps_handles (RegSetValueExW env k n t d).
Proof. intros w. unfold RegSetValueExW. cbn. now destruct (_ =? 0). Qed.

Lemma keeps_RegCloseKey k : keeps_handles (RegCloseKey k).
Proof. now intros w. Qed.

Lemma keeps_malloc n : keeps_handles (malloc n).
Proof. now intros w. Qed.

Lemma keeps_free p : keeps_handles (free p).
Proof. now intros w. Qed.

Lemma keeps_invalid_parameter env : keeps_handles (invalid_parameter env).
Proof. intros w. unfold invalid_parameter. now destruct (crt_handler_returns env). Qed.

Lemma keeps_RtlDosPathNameToNtPathName_U env p :
  keeps_handles (RtlDosPathNameToNtPathName_U env p).
Proof. now intros w. Qed.

Lemma keeps_RtlFreeUnicodeString : keeps_handles RtlFreeUnicodeString.
Proof. now intros w. Qed.

Create HintDb keeps.
#[local] Hint Resolve keeps_ret keeps_get_hDriver keeps_DeviceIoControl keeps_LastNtStatus
  keeps_LastNtStatus_set keeps_NtLoadDriver keeps_NtUnloadDriver keeps_RegOpenKeyW
  keeps_RegCreateKeyW keeps_RegSetValueExW keeps_RegCloseKey keeps_malloc keeps_free
  keeps_invalid_parameter keeps_RtlDosPathNameToNtPathName_U keeps_RtlFreeUnicodeString
  : keeps.

(** Walks through a monadic body built from binds, conditionals and
    primitives. *)
Ltac keeps_step :=
  match goal with
  | |- keeps_handles (bind _ _) => apply keeps_bind; [| intros ?]
  | |- keeps_handles (if ?b then _ else _) => apply keeps_if
  | |- keeps_handles (let '(_, _) := ?p in _) => destruct p
  | |- keeps_handles (match ?x with Some _ => _ | None => _ end) => destruct x
  | |- keeps_handles _ => solve [eauto with keeps]
  end.
Ltac keeps_walk := repeat keeps_step.

Lemma keeps_wcscpy_s env n s : keeps_handles (wcscpy_s env n s).
Proof. unfold wcscpy_s. keeps_walk. Qed.

Lemma keeps_wcscpy_s_null env : keeps_handles (wcscpy_s_null env).
Proof. unfold wcscpy_s_null. keeps_walk. Qed.

Lemma keeps_swprintf_s env n s : keeps_handles (swprintf_s env n s).
Proof. unfold swprintf_s. keeps_walk. Qed.

#[local] Hint Resolve keeps_wcscpy_s keeps_wcscpy_s_null keeps_swprintf_s : keeps.

Lemma keeps_PrepareDriverRegEntry env svc path :
  keeps_handles (PrepareDriverRegEntry env svc path).
Proof. unfold PrepareDriverRegEntry. keeps_walk. Qed.

#[local] Hint Resolve keeps_PrepareDriverRegEntry : keeps.

Lemma keeps_LoadDriver env svc path : keeps_handles (LoadDriver env svc path).
Proof. unfold LoadDriver. keeps_walk. Qed.

Lemma keeps_simple_command env code req out :
  keeps_handles (simple_command env code req out).
Proof. unfold simple_command. keeps_walk. Qed.

#[local] Hint Resolve keeps_LoadDriver keeps_simple_command : keeps.

Lemma keeps_run_command env layout c : keeps_handles (run_command env layout c).
Proof.
  destruct c; cbn [run_command];
    unfold only_status, UnmapMemory, UnmapMemoryRegion, DisableDEP, ProtectProcess,
      PromoteHandle, FreeMem, ReadMem, WriteMem, ProtectMem, ConcealVAD,
      MapMemory, MapMemoryRegion, AllocateMem, InjectDll, MMapDriver;
    keeps_walk.
Qed.

(** ** Lifecycle *)


Lemma keeps_preserves {A} (m : M A) : keeps_handles m -> preserves_inv m.
Proof.
  intros K w H. destruct (K w) as [E1 E2]. unfold handle_inv in *. now rewrite E1, E2.
Qed.

Lemma preserves_bind {A B} (m : M A) (k : A -> M B) :
  preserves_inv m -> (forall a, preserves_inv (k a)) -> preserves_inv (bind m k).
Proof.
  intros Hm Hk w H. rewrite final_world_bind.
  specialize (Hm w H). destruct (m w) as [a w'|w']; cbn in Hm; [now apply Hk | exact Hm].
Qed.



Lemma Unload_eq env w :
  Unload env w
  = Done (env_NtUnloadDriver env (log (closed w)) stop_path)
         (logged (CallNtUnloadDriver stop_path) (closed w)).
Proof.
  unfold Unload, closed, bind, get_hDriver, UnloadDriver, NtUnloadDriver.
  now destruct (hDriver w =? INVALID_HANDLE_VALUE).
Qed.

Lemma closed_hDriver w : hDriver (closed w) = INVALID_HANDLE_VALUE.
Proof.
  unfold closed. destruct (hDriver w =? INVALID_HANDLE_VALUE) eqn:E; [|reflexivity].
  now apply Z.eqb_eq.
Qed.

Lemma closed_openHandles w : handle_inv w -> openHandles (closed w) = [].
Proof.
  unfold handle_inv, closed. intros H.
  destruct (hDriver w =? INVALID_HANDLE_VALUE); [exact H|].
  cbn. rewrite H. cbn. now rewrite decide_True.
Qed.

Lemma closed_idem w : hDriver w = INVALID_HANDLE_VALUE -> closed w = w.
Proof. intros H. unfold closed. now rewrite H. Qed.

(** Opening the device from the sentinel state and storing the result. *)
Lemma CreateFile_from_sentinel env w :
  hDriver w = INVALID_HANDLE_VALUE -> openHandles w = [] ->
  exists h w1, CreateFile env w = Done h w1 /\ handle_inv (set_hDriver h w1).
Proof.
  intros Hh Ho. unfold CreateFile.
  destruct (to_HANDLE (fst (env_CreateFile env (log w))) =? INVALID_HANDLE_VALUE) eqn:E;
    eexists _, _; (split; [reflexivity|]); unfold handle_inv; cbn; rewrite E; cbn;
    now rewrite ?Ho.
Qed.

Lemma Reload_preserves env path : preserves_inv (Reload env path).
Proof.
  intros w H. unfold Reload.
  rewrite final_world_bind, Unload_eq.
  set (w1 := logged (CallNtUnloadDriver stop_path) (closed w)).
  assert (Hh : hDriver w1 = INVALID_HANDLE_VALUE) by apply closed_hDriver.
  assert (Ho : openHandles w1 = []) by now apply closed_openHandles.
  rewrite final_world_bind.
  set (p := if bool_decide (path = []) then default_path env else path).
  destruct (keeps_LoadDriver env DRIVER_SVC_NAME p w1) as [K1 K2].
  destruct (LoadDriver env DRIVER_SVC_NAME p w1) as [st w2|w2]; cbn in K1, K2.
  - destruct (NT_SUCCESS st); cbn [negb].
    + rewrite final_world_bind.
      destruct (CreateFile_from_sentinel env w2) as (h & w3 & E & I);
        [rewrite K1; exact Hh | rewrite K2; exact Ho |].
      rewrite E. unfold bind, put_hDriver.
      now destruct (h =? INVALID_HANDLE_VALUE).
    + unfold LastNtStatus_set, handle_inv. cbn [final_world].
      change (hDriver (set_lastStatus st w2)) with (hDriver w2).
      change (openHandles (set_lastStatus st w2)) with (openHandles w2).
      rewrite K1, K2. change (hDriver w1) with (hDriver (closed w)).
      change (openHandles w1) with (openHandles (closed w)).
      now rewrite closed_hDriver, closed_openHandles.
  - unfold handle_inv. rewrite K1, K2. change (hDriver w1) with (hDriver (closed w)).
    change (openHandles w1) with (openHandles (closed w)).
    now rewrite closed_hDriver, closed_openHandles.
Qed.

Lemma Unload_preserves env : preserves_inv (Unload env).
Proof.
  intros w H. rewrite Unload_eq. unfold handle_inv. cbn.
  now rewrite closed_hDriver, closed_openHandles.
Qed.

Lemma EnsureLoaded_loaded env path w :
  hDriver w <> INVALID_HANDLE_VALUE -> EnsureLoaded env path w = Done STATUS_SUCCESS w.
Proof.
  intros H. unfold EnsureLoaded, bind, get_hDriver. now rewrite eqb_sentinel_false.
Qed.

Lemma EnsureLoaded_unloaded env path w :
  hDriver w = INVALID_HANDLE_VALUE ->
  EnsureLoaded env path w
  = (do h <- CreateFile env in
     run put_hDriver h in
     if negb (h =? INVALID_HANDLE_VALUE) then ret STATUS_SUCCESS else Reload env path) w.
Proof.
  intros E. unfold EnsureLoaded. unfold bind at 1. unfold get_hDriver. now rewrite E.
Qed.

Lemma EnsureLoaded_preserves env path : preserves_inv (EnsureLoaded env path).
Proof.
  intros w H.
  destruct (decide (hDriver w = INVALID_HANDLE_VALUE)) as [E|E].
  - assert (Ho : openHandles w = []) by (unfold handle_inv in H; now rewrite E in H).
    destruct (CreateFile_from_sentinel env w E Ho) as (h & w1 & E1 & I).
    rewrite (EnsureLoaded_unloaded env path w E).
    rewrite final_world_bind, E1, final_world_bind. unfold put_hDriver.
    destruct (h =? INVALID_HANDLE_VALUE); cbn [negb]; [|exact I].
    now apply Reload_preserves.
  - now rewrite EnsureLoaded_loaded.
Qed.

Lemma inv_at_most_one w : handle_inv w -> (length (openHandles w) <= 1)%nat.
Proof.
  unfold handle_inv. intros ->. destruct (hDriver w =? INVALID_HANDLE_VALUE); cbn; lia.
Qed.

(** C4. The extension-handle invariant is kept by every public operation:
    afterwards the handle field is either the sentinel with no device handle
    open, or the single open device handle; so at most one handle is
    outstanding, and [EnsureLoaded] on a loaded object opens nothing (it
    returns success and leaves the world as it was). *)
Theorem handle_invariant env layout (op : Operation) (w : World) :
  handle_inv w ->
  handle_inv (final_world (run_operation env layout op w))
  /\ (length (openHandles (final_world (run_operation env layout op w))) <= 1)%nat
  /\ (hDriver w <> INVALID_HANDLE_VALUE ->
      forall path, EnsureLoaded env path w = Done STATUS_SUCCESS w).
Proof.
  intros H.
  assert (I : handle_inv (final_world (run_operation env layout op w))).
  { destruct op; cbn [run_operation].
    - now apply EnsureLoaded_preserves.
    - now apply Reload_preserves.
    - now apply Unload_preserves.
    - apply keeps_preserves; [|exact H].
      apply keeps_bind; [apply keeps_run_command | intros; apply keeps_ret]. }
  split; [exact I|]. split; [now apply inv_at_most_one|].
  intros Hl path. now apply EnsureLoaded_loaded.
Qed.

(** C5. [Unload] always ends with the handle at the sentinel, whatever
    status the stop instruction reports, and returns that status; a second
    [Unload] right after adds exactly one call to the log, the stop
    instruction, so it closes nothing, and returns the status of that call. *)
Theorem Unload_twice env (w : World) :
  exists st1 w1,
    Unload env w = Done st1 w1
    /\ hDriver w1 = INVALID_HANDLE_VALUE
    /\ (exists before, log w1 = CallNtUnloadDriver stop_path :: before
                       /\ st1 = env_NtUnloadDriver env before stop_path)
    /\ Unload env w1
       = Done (env_NtUnloadDriver env (log w1) stop_path)
              (logged (CallNtUnloadDriver stop_path) w1).
Proof.
  eexists _, _. split; [apply Unload_eq|].
  split; [apply closed_hDriver|].
  split; [eexists; split; reflexivity|].
  rewrite Unload_eq. rewrite closed_idem; [reflexivity|]. apply closed_hDriver.
Qed.

Lemma handle_invariant_witness :
  handle_inv loaded_world
  /\ (handle_inv (final_world (run_operation ok_env
                                 shipped_layout (OpReload []) loaded_world))
      /\ (length (openHandles
                    (final_world (run_operation ok_env
                                    shipped_layout (OpReload []) loaded_world))) <= 1)%nat
      /\ (hDriver loaded_world <> INVALID_HANDLE_VALUE ->
          forall path,
            EnsureLoaded ok_env path loaded_world
            = Done STATUS_SUCCESS loaded_world)).
Proof.
  split; [reflexivity|].
  apply (handle_invariant ok_env
           shipped_layout (OpReload []) loaded_world).
  reflexivity.
Defined.

(** ** Default driver file *)


Lemma tier_names_NoDup : NoDup tier_names.
Proof.
  unfold tier_names. repeat constructor; rewrite ?elem_of_cons, ?elem_of_nil;
    intros H; repeat destruct H as [H|H]; try discriminate H; exact H.
Qed.

Lemma default_path_nonempty env : default_path env <> [].
Proof.
  unfold default_path. destruct (exe_directory env); discriminate.
Qed.

Ltac version_cases v :=
  unfold default_filename, IsWindows8Point1OrGreater, IsWindows8OrGreater,
    IsWindows7OrGreater, IsWindowsVersionOrGreater;
  destruct v as [ma mi sp]; cbn [major minor servicePackMajor];
  repeat match goal with
         | |- context [(?a <? ?b)%N] => destruct (N.ltb_spec a b)
         | |- context [(?a =? ?b)%N] => destruct (N.eqb_spec a b)
         | |- context [(?a <=? ?b)%N] => destruct (N.leb_spec a b)
         end; cbn [orb andb].

Ltac tier_iff v :=
  version_cases v; split; intros Hside; first [reflexivity | lia | discriminate Hside].

(** C6. With an empty path [Reload] resolves the driver file by the OS
    version, newest tier first; the choice is a total function of the
    version: BlackBoneDrv81.sys exactly from 6.3 (Windows 8.1) upwards,
    BlackBoneDrv8.sys exactly for 6.2 (Windows 8), BlackBoneDrv7.sys exactly
    for 6.1 (Windows 7), BlackBoneDrv.sys exactly below 6.1; the four names
    differ, and the path used is that name in the executable's directory. *)
Theorem default_filename_total env (v : OSVersion) :
  default_filename v ∈ tier_names
  /\ NoDup tier_names
  /\ (default_filename v = L "BlackBoneDrv81.sys"
      <-> (6 < major v \/ (major v = 6 /\ 3 <= minor v))%N)
  /\ (default_filename v = L "BlackBoneDrv8.sys" <-> (major v = 6 /\ minor v = 2)%N)
  /\ (default_filename v = L "BlackBoneDrv7.sys" <-> (major v = 6 /\ minor v = 1)%N)
  /\ (default_filename v = L "BlackBoneDrv.sys"
      <-> (major v < 6 \/ (major v = 6 /\ minor v = 0))%N)
  /\ default_path env = exe_directory env ++ L "\" ++ default_filename (os_version env)
  /\ (forall w, Reload env [] w = Reload env (default_path env) w).
Proof.
  split. { unfold tier_names. version_cases v; rewrite !elem_of_cons; auto. }
  split. { apply tier_names_NoDup. }
  split. { tier_iff v. }
  split. { tier_iff v. }
  split. { tier_iff v. }
  split. { tier_iff v. }
  split. { reflexivity. }
  intros w. unfold Reload, bind.
  destruct (Unload env w) as [st w1|w1]; [|reflexivity].
  rewrite bool_decide_true by reflexivity.
  now destruct (bool_decide (default_path env = [])).
Qed.

(** ** AllocateMem *)

Lemma AllocateMem_loaded env pid base size type protection physical w :
  hDriver w <> INVALID_HANDLE_VALUE ->
  let res := env_DeviceIoControl env (log w) (hDriver w) IOCTL_BLACKBONE_ALLOCATE_FREE_MEMORY
               (ALLOCATE_FREE_MEMORY pid base size type protection true physical)
               OutAllocResult in
  let w1 := logged (CallDeviceIoControl (hDriver w) IOCTL_BLACKBONE_ALLOCATE_FREE_MEMORY
                      (ALLOCATE_FREE_MEMORY pid base size type protection true physical)
                      OutAllocResult) w in
  AllocateMem env pid base size type protection physical w
  = if io_ok res
    then Done (STATUS_SUCCESS,
               ALLOCATE_FREE_MEMORY_RESULT.address (as_ALLOCATE_FREE_MEMORY_RESULT (io_out res)),
               ALLOCATE_FREE_MEMORY_RESULT.size (as_ALLOCATE_FREE_MEMORY_RESULT (io_out res))) w1
    else Done (io_status res, 0, 0) (set_lastStatus (io_status res) w1).
Proof.
  intros H. cbv zeta. unfold AllocateMem, bind, get_hDriver, DeviceIoControl.
  rewrite eqb_sentinel_false by exact H.
  now destruct (io_ok _).
Qed.




(** ** MapMemory *)

Lemma remove_one_head {A} `{EqDecision A} (x : A) (l : list A) : remove_one x (x :: l) = l.
Proof. cbn. now rewrite decide_True. Qed.

Lemma wcscpy_s_fits env n s w : (length s < n)%nat -> wcscpy_s env n s w = Done s w.
Proof.
  intros H. unfold wcscpy_s. now rewrite (proj2 (Nat.ltb_lt _ _) H).
Qed.


(** The run of [MapMemory], phase by phase. *)
Lemma MapMemory_loaded env layout pid pipeName ms result w :
  hDriver w <> INVALID_HANDLE_VALUE ->
  (length (c_str pipeName) < pipeName_count layout)%nat ->
  let name := c_str pipeName in
  let probe := probe_reply env w pid name ms in
  let fetch := fetch_reply env w pid name ms in
  let w1 := logged (probe_call w pid name ms) w in
  let w2 := logged (fetch_call env w pid name ms)
              (set_heap (heapNext w :: heapLive w) (S (heapNext w))
                 (logged (CallMalloc (size_hint env w pid name ms)) w1)) in
  MapMemory env layout pid pipeName ms result w
  = if io_ok probe
    then if io_bytes probe =? 4
         then if io_ok fetch
              then Done (STATUS_SUCCESS,
                         fill_MapMemoryResult (as_MAP_MEMORY_RESULT (io_out fetch)) result)
                        (set_heap (heapLive w) (S (heapNext w))
                           (logged (CallFree (heapNext w)) w2))
              else Done (io_status fetch, result) (set_lastStatus (io_status fetch) w2)
         else Done (lastStatus w, result) w1
    else Done (io_status probe, result) (set_lastStatus (io_status probe) w1).
Proof.
  intros Hh Hn. cbv zeta.
  unfold MapMemory, probe_reply, fetch_reply, fetch_call, probe_call, size_hint,
    bind, get_hDriver.
  rewrite eqb_sentinel_false by exact Hh.
  rewrite wcscpy_s_fits by exact Hn.
  unfold DeviceIoControl, malloc, free, LastNtStatus, ret.
  cbn [log logged set_heap set_lastStatus heapNext heapLive hDriver lastStatus].
  destruct (io_ok (env_DeviceIoControl env (log w) _ _ _ _)); cbn [andb]; [|reflexivity].
  destruct (io_bytes _ =? 4); [|reflexivity].
  destruct (io_ok _); [|reflexivity].
  cbn [log logged set_heap set_lastStatus heapNext heapLive hDriver lastStatus].
  now rewrite remove_one_head.
Qed.

Lemma emplace_keeps (k : Z * Z) (v : Z) (m : mapMemoryMap) (k0 : Z * Z) (v0 : Z) :
  m !! k0 = Some v0 -> emplace k v m !! k0 = Some v0.
Proof.
  intros H. unfold emplace. destruct (m !! k) eqn:E; [exact H|].
  rewrite lookup_insert_ne; [exact H|]. intros ->. congruence.
Qed.

Lemma emplace_entries_keeps es : forall (m : mapMemoryMap) (k0 : Z * Z) (v0 : Z),
  m !! k0 = Some v0 -> emplace_entries es m !! k0 = Some v0.
Proof.
  induction es as [|e es IH]; intros m k0 v0 H; cbn; [exact H|].
  apply IH. now apply emplace_keeps.
Qed.

Lemma emplace_entries_fresh es : forall (m : mapMemoryMap),
  NoDup (map map_key es) ->
  (forall e, e ∈ es -> m !! map_key e = None) ->
  size (emplace_entries es m) = (size m + length es)%nat
  /\ forall e, e ∈ es -> emplace_entries es m !! map_key e = Some (MAP_ENTRY.newPtr e).
Proof.
  induction es as [|e es IH]; intros m Hnd Hfresh.
  - cbn. split; [lia|]. intros e He. now apply elem_of_nil in He.
  - cbn [emplace_entries]. fold (map_key e).
    cbn [map] in Hnd. apply NoDup_cons in Hnd as [Hnotin Hnd].
    assert (He : m !! map_key e = None) by (apply Hfresh; left).
    unfold emplace. rewrite He.
    destruct (IH (<[map_key e := MAP_ENTRY.newPtr e]> m) Hnd) as [Hsize Hlook].
    { intros e' He'. rewrite lookup_insert_ne.
      - apply Hfresh. now right.
      - intros Heq. apply Hnotin. rewrite Heq. apply list_elem_of_fmap. now exists e'. }
    split.
    + rewrite Hsize, map_size_insert_None by exact He. cbn. lia.
    + intros e' He'. apply elem_of_cons in He' as [->|He'].
      * apply emplace_entries_keeps. apply lookup_insert_eq.
      * now apply Hlook.
Qed.

Lemma new_calls_prefix {A} (w : World) (o : Outcome A) (pre : list Call) :
  log (final_world o) = pre ++ log w -> new_calls w o = pre.
Proof.
  intros E. unfold new_calls. rewrite E, length_app.
  replace (length pre + length (log w) - length (log w))%nat with (length pre) by lia.
  apply take_app_length.
Qed.

Lemma round_trips_prefix {A} (w : World) (o : Outcome A) (pre : list Call) :
  log (final_world o) = pre ++ log w -> round_trips w o = ioctl_count pre.
Proof.
  intros E. unfold round_trips, ioctl_count. rewrite E, List.filter_app, length_app. lia.
Qed.

Lemma to_HANDLE_in_range (x : Z) : 0 <= x < 2 ^ 64 -> to_HANDLE x = x.
Proof. intros H. unfold to_HANDLE, wrap. now apply Z.mod_small. Qed.

(** The log a run of [MapMemory] adds, by the answers of the channel. *)
Lemma MapMemory_log env layout pid pipeName ms result w :
  hDriver w <> INVALID_HANDLE_VALUE ->
  (length (c_str pipeName) < pipeName_count layout)%nat ->
  let name := c_str pipeName in
  let probe := probe_reply env w pid name ms in
  let fetch := fetch_reply env w pid name ms in
  log (final_world (MapMemory env layout pid pipeName ms result w))
  = (if io_ok probe && (io_bytes probe =? 4)
     then (if io_ok fetch then [CallFree (heapNext w)] else [])
          ++ [fetch_call env w pid name ms; CallMalloc (size_hint env w pid name ms);
              probe_call w pid name ms]
     else [probe_call w pid name ms]) ++ log w.
Proof.
  intros Hh Hn. cbv zeta. rewrite MapMemory_loaded by assumption. cbv zeta.
  destruct (io_ok (probe_reply _ _ _ _ _)); cbn [andb]; [|reflexivity].
  destruct (io_bytes _ =? 4); [|reflexivity].
  now destruct (io_ok _).
Qed.

(** C2, as the code has it. With the handle open and a pipe name that fits
    its field, [MapMemory] first probes with the 4-byte buffer
    [&sizeRequired] (not an empty one); it makes the second round trip, into
    a heap buffer of the reported size, exactly when the probe succeeds and
    returns 4 bytes; when the fetch succeeds the call returns success, the
    shared pages and the pipe handle are those of the response, and, if the
    caller's map was empty and the response holds N entries with distinct
    (original address, size) keys, the map holds exactly those N pairs, each
    sent to its new address. *)
Theorem MapMemory_two_phase env layout pid pipeName ms result (w : World) :
  hDriver w <> INVALID_HANDLE_VALUE ->
  (length (c_str pipeName) < pipeName_count layout)%nat ->
  let name := c_str pipeName in
  let probe := probe_reply env w pid name ms in
  let fetch := fetch_reply env w pid name ms in
  let r := as_MAP_MEMORY_RESULT (io_out fetch) in
  let o := MapMemory env layout pid pipeName ms result w in
  (exists later, rev (new_calls w o) = probe_call w pid name ms :: later)
  /\ nOutBufferSize layout OutSizeRequired = 4
  /\ (round_trips w o = 2%nat <-> io_ok probe = true /\ io_bytes probe = 4)
  /\ (round_trips w o = 1%nat <-> ~ (io_ok probe = true /\ io_bytes probe = 4))
  /\ (io_ok probe = true -> io_bytes probe = 4 ->
      (exists later, rev (new_calls w o)
                     = probe_call w pid name ms :: CallMalloc (size_hint env w pid name ms)
                       :: fetch_call env w pid name ms :: later)
      /\ (io_ok fetch = true ->
          exists result' w',
            o = Done (STATUS_SUCCESS, result') w'
            /\ MapMemoryResult.hostSharedPage result' = MAP_MEMORY_RESULT.hostPage r
            /\ MapMemoryResult.targetSharedPage result' = MAP_MEMORY_RESULT.targetPage r
            /\ (0 <= MAP_MEMORY_RESULT.pipeHandle r < 2 ^ 64 ->
                MapMemoryResult.targetPipe result' = MAP_MEMORY_RESULT.pipeHandle r)
            /\ (MapMemoryResult.regions result = ∅ ->
                MAP_MEMORY_RESULT.count r = Z.of_nat (length (MAP_MEMORY_RESULT.entries r)) ->
                NoDup (map map_key (MAP_MEMORY_RESULT.entries r)) ->
                size (MapMemoryResult.regions result') = length (MAP_MEMORY_RESULT.entries r)
                /\ forall e, e ∈ MAP_MEMORY_RESULT.entries r ->
                     MapMemoryResult.regions result' !! map_key e
                     = Some (MAP_ENTRY.newPtr e)))).
Proof.
  intros Hh Hn. cbv zeta.
  pose proof (MapMemory_log env layout pid pipeName ms result w Hh Hn) as Hlog.
  cbv zeta in Hlog.
  set (o := MapMemory env layout pid pipeName ms result w) in *.
  set (probe := probe_reply env w pid (c_str pipeName) ms) in *.
  set (fetch := fetch_reply env w pid (c_str pipeName) ms) in *.
  assert (Hbytes : (io_bytes probe =? 4) = true <-> io_bytes probe = 4) by apply Z.eqb_eq.
  split; [|split; [reflexivity|]].
  { rewrite (new_calls_prefix _ _ _ Hlog).
    destruct (io_ok probe && (io_bytes probe =? 4)); [|now eexists].
    rewrite rev_app_distr. cbn. now eexists. }
  rewrite (round_trips_prefix _ _ _ Hlog).
  split; [|split].
  - destruct (io_ok probe); cbn [andb].
    + destruct (io_bytes probe =? 4).
      * destruct (io_ok fetch); cbn; intuition.
      * cbn. intuition; discriminate.
    + cbn. intuition; discriminate.
  - destruct (io_ok probe); cbn [andb].
    + destruct (io_bytes probe =? 4).
      * destruct (io_ok fetch); cbn; intuition; discriminate.
      * cbn. intuition. discriminate.
    + cbn. intuition. discriminate.
  - intros Hok H4. split.
    { rewrite (new_calls_prefix _ _ _ Hlog), Hok, (proj2 Hbytes H4). cbn [andb].
      rewrite rev_app_distr. cbn. now eexists. }
    intros Hf. subst o. rewrite MapMemory_loaded by assumption. cbv zeta.
    fold probe fetch. rewrite Hok, (proj2 Hbytes H4), Hf.
    eexists _, _. split; [reflexivity|].
    unfold fill_MapMemoryResult. cbn [MapMemoryResult.hostSharedPage
      MapMemoryResult.targetSharedPage MapMemoryResult.targetPipe MapMemoryResult.regions].
    split; [reflexivity|]. split; [reflexivity|].
    split; [apply to_HANDLE_in_range|].
    intros Hempty Hcount Hnd. rewrite Hempty, Hcount, Nat2Z.id, firstn_all.
    destruct (emplace_entries_fresh _ (∅ : mapMemoryMap) Hnd) as [Hsize Hlook].
    { intros e _. apply lookup_empty. }
    split; [|exact Hlook].
    rewrite Hsize, map_size_empty. lia.
Qed.

Lemma MapMemory_two_phase_witness :
  hDriver loaded_world <> INVALID_HANDLE_VALUE
  /\ (length (c_str (L "bbpipe")) < pipeName_count shipped_layout)%nat
  /\ round_trips loaded_world
       (MapMemory (live_env (map_channel 64 (Some one_region))) shipped_layout
          1234 (L "bbpipe") false fresh_result loaded_world) = 2%nat.
Proof.
  assert (H1 : hDriver loaded_world <> INVALID_HANDLE_VALUE) by discriminate.
  assert (H2 : (length (c_str (L "bbpipe")) < pipeName_count shipped_layout)%nat)
    by (apply Nat.ltb_lt; reflexivity).
  split; [exact H1|]. split; [exact H2|].
  destruct (MapMemory_two_phase (live_env (map_channel 64 (Some one_region))) shipped_layout
              1234 (L "bbpipe") false fresh_result loaded_world H1 H2)
    as (_ & _ & [_ Hback] & _).
  apply Hback. split; reflexivity.
Defined.

(** A successful fetch of one entry into a result object that already holds
    two regions. *)
Lemma MapMemory_stale_run :
  exists w',
    MapMemory (live_env (map_channel 64 (Some one_region))) shipped_layout
      1234 (L "bbpipe") false stale_result loaded_world
    = Done (STATUS_SUCCESS, fill_MapMemoryResult one_region stale_result) w'
    /\ last (log w') = Some (CallDeviceIoControl 0x44 IOCTL_BLACKBONE_MAP_MEMORY
                               (MAP_MEMORY 1234 (L "bbpipe") false) OutSizeRequired).
Proof.
  eexists. split.
  { rewrite MapMemory_loaded; [reflexivity | discriminate | apply Nat.ltb_lt; reflexivity]. }
  reflexivity.
Qed.

(** C2 as stated fails.  The probe is issued with the 4-byte buffer
    [&sizeRequired], not an empty one; and with a result object that already
    holds two regions, a successful fetch of N = 1 entry leaves two entries in
    the map, the fetched pair still sent to its old address 0x9000 instead of
    the new address 0x5000. *)
Lemma MapMemory_claim_fails :
  exists w',
    MapMemory (live_env (map_channel 64 (Some one_region))) shipped_layout
      1234 (L "bbpipe") false stale_result loaded_world
    = Done (STATUS_SUCCESS, fill_MapMemoryResult one_region stale_result) w'
    /\ last (log w') = Some (CallDeviceIoControl 0x44 IOCTL_BLACKBONE_MAP_MEMORY
                               (MAP_MEMORY 1234 (L "bbpipe") false) OutSizeRequired)
    /\ nOutBufferSize shipped_layout OutSizeRequired <> 0
    /\ length (MAP_MEMORY_RESULT.entries one_region) = 1%nat
    /\ size (MapMemoryResult.regions (fill_MapMemoryResult one_region stale_result)) <> 1%nat
    /\ MapMemoryResult.regions (fill_MapMemoryResult one_region stale_result) !! (0x1000, 0x10)
       <> Some 0x5000.
Proof.
  destruct MapMemory_stale_run as (w' & Hrun & Hlast).
  exists w'. split; [exact Hrun|]. split; [exact Hlast|].
  split; [discriminate|]. split; [reflexivity|].
  split; [vm_compute; discriminate|]. vm_compute; discriminate.
Qed.

Ltac case_if :=
  match goal with
  | |- context [if ?b then _ else _] => destruct b eqn:?
  end.

(** Whatever the channel answers, the result object is either untouched or
    filled from a response on top of what it held. *)
Lemma MapMemory_result env layout pid pipeName ms result w st result' w' :
  MapMemory env layout pid pipeName ms result w = Done (st, result') w' ->
  result' = result
  \/ exists r, st = STATUS_SUCCESS /\ result' = fill_MapMemoryResult r result.
Proof.
  unfold MapMemory, bind, get_hDriver, wcscpy_s, bind, invalid_parameter,
    DeviceIoControl, malloc, free, LastNtStatus, ret.
  repeat (case_if; cbv beta iota); intros [= <- <- <-]; eauto.
Qed.

(** C10. [MapMemory] never clears the caller's region map: every entry the
    result object held before the call is still there afterwards with the
    same value, on every return and in particular after a successful fetch;
    so an entry fetched under a key that was already present does not replace
    the value stored there. *)
Theorem MapMemory_keeps_entries env layout pid pipeName ms result (w : World) st result' w' :
  MapMemory env layout pid pipeName ms result w = Done (st, result') w' ->
  forall (k : Z * Z) (v : Z),
    MapMemoryResult.regions result !! k = Some v ->
    MapMemoryResult.regions result' !! k = Some v.
Proof.
  intros Hrun k v Hk.
  destruct (MapMemory_result _ _ _ _ _ _ _ _ _ _ Hrun) as [->|(r & _ & ->)]; [exact Hk|].
  unfold fill_MapMemoryResult. cbn [MapMemoryResult.regions].
  now apply emplace_entries_keeps.
Qed.

Lemma MapMemory_keeps_entries_witness :
  (exists w',
      MapMemory (live_env (map_channel 64 (Some one_region))) shipped_layout
        1234 (L "bbpipe") false stale_result loaded_world
      = Done (STATUS_SUCCESS, fill_MapMemoryResult one_region stale_result) w')
  /\ MapMemoryResult.regions stale_result !! (0x1000, 0x10) = Some 0x9000
  /\ MapMemoryResult.regions
       (fill_MapMemoryResult one_region stale_result) !! (0x1000, 0x10) = Some 0x9000.
Proof.
  destruct MapMemory_stale_run as (w' & Hrun & _).
  split; [now exists w'|]. split; [reflexivity|].
  apply (MapMemory_keeps_entries _ _ _ _ _ _ _ _ _ _ Hrun (0x1000, 0x10) 0x9000).
  reflexivity.
Defined.

(** On the failed-fetch path the block stays allocated; on the successful
    one it is released. *)
Lemma MapMemory_heap env layout pid pipeName ms result w :
  hDriver w <> INVALID_HANDLE_VALUE ->
  (length (c_str pipeName) < pipeName_count layout)%nat ->
  io_ok (probe_reply env w pid (c_str pipeName) ms) = true ->
  io_bytes (probe_reply env w pid (c_str pipeName) ms) = 4 ->
  heapLive (final_world (MapMemory env layout pid pipeName ms result w))
  = if io_ok (fetch_reply env w pid (c_str pipeName) ms)
    then heapLive w
    else heapNext w :: heapLive w.
Proof.
  intros Hh Hn Hok H4. rewrite MapMemory_loaded by assumption. cbv zeta.
  rewrite Hok, H4, Z.eqb_refl.
  destruct (io_ok (fetch_reply env w pid (c_str pipeName) ms)); reflexivity.
Qed.

(** C9, at the failing input. The probe succeeds with a 4-byte hint of 64,
    the fetch fails: [MapMemory] returns the failure status while the block
    obtained from [malloc] is still allocated; no [free] was called. *)
Theorem MapMemory_leaks_on_failed_fetch :
  exists st w',
    MapMemory (live_env (map_channel 64 None)) shipped_layout
      1234 (L "bbpipe") false fresh_result loaded_world = Done (st, fresh_result) w'
    /\ NT_SUCCESS st = false
    /\ heapLive loaded_world = []
    /\ heapLive w' = [0%nat]
    /\ log w' = [CallDeviceIoControl 0x44 IOCTL_BLACKBONE_MAP_MEMORY
                   (MAP_MEMORY 1234 (L "bbpipe") false) (OutHeap 0%nat 64);
                 CallMalloc 64;
                 CallDeviceIoControl 0x44 IOCTL_BLACKBONE_MAP_MEMORY
                   (MAP_MEMORY 1234 (L "bbpipe") false) OutSizeRequired].
Proof.
  eexists _, _. split.
  { rewrite MapMemory_loaded; [reflexivity | discriminate | apply Nat.ltb_lt; reflexivity]. }
  repeat split; reflexivity.
Qed.

(** ** Service registration *)

(** The run of [PrepareDriverRegEntry] when the key opens, the service key is
    created and the image path is written: the status is that of the write of
    "Type", and the registry holds the image path whether or not that last
    write succeeded. *)
Lemma PrepareDriverRegEntry_writes env svcName path w :
  (length (L "\??\" ++ c_str path) < MAX_PATH)%nat ->
  let key := service_key svcName in
  let image := mkRegValue REG_SZ (wide_bytes (L "\??\" ++ c_str path)) in
  let type := mkRegValue REG_DWORD (bytes_at_dwType env) in
  let l1 := CallRegOpenKey HKEY_LOCAL_MACHINE (L "system\CurrentControlSet\Services") :: log w in
  let l2 := CallRegCreateKey services_key (c_str svcName) :: l1 in
  let l3 := CallRegSetValue key (L "ImagePath") image :: l2 in
  env_RegOpenKey env (log w) HKEY_LOCAL_MACHINE (L "system\CurrentControlSet\Services") = 0 ->
  env_RegCreateKey env l1 services_key (c_str svcName) = 0 ->
  env_RegSetValue env l2 key (L "ImagePath") image = 0 ->
  exists w',
    PrepareDriverRegEntry env svcName path w
    = Done (env_RegSetValue env l3 key (L "Type") type) w'
    /\ registry w'
       = (if env_RegSetValue env l3 key (L "Type") type =? 0
          then <[(key, L "Type") := type]> (<[(key, L "ImagePath") := image]> (registry w))
          else <[(key, L "ImagePath") := image]> (registry w))
    /\ List.filter (fun c => match c with CallRegSetValue _ _ _ => true | _ => false end) (log w')
       = [CallRegSetValue key (L "Type") type; CallRegSetValue key (L "ImagePath") image]
         ++ List.filter (fun c => match c with CallRegSetValue _ _ _ => true | _ => false end)
              (log w).
Proof.
  intros Hfit. cbv zeta. intros H1 H2 H3.
  unfold PrepareDriverRegEntry, bind, swprintf_s.
  rewrite (proj2 (Nat.ltb_lt _ _) Hfit).
  unfold ret, RegOpenKeyW, RegCreateKeyW, RegSetValueExW, RegCloseKey.
  cbv beta iota zeta. cbn [log logged set_registry registry].
  fold services_key. rewrite H1. cbn [Z.eqb negb]. cbv beta iota zeta.
  cbn [log logged set_registry registry].
  fold (service_key svcName). rewrite H2. cbn [Z.eqb negb]. cbv beta iota zeta.
  cbn [log logged set_registry registry].
  rewrite H3. cbn [Z.eqb negb]. cbv beta iota zeta.
  cbn [log logged set_registry registry].
  destruct (env_RegSetValue env _ _ _ _ =? 0) eqn:E4; cbn [negb];
    eexists; (split; [reflexivity|]); split; reflexivity.
Qed.

(** C7, at the failing input. Every registry call succeeds, the call
    returns 0, and the value stored under "Type" is the four bytes found at
    the one-byte local [dwType]: 01 CC CC CC in a debug build, the number
    0xCCCCCC01 and not 1. *)
Theorem PrepareDriverRegEntry_type_overread :
  exists w',
    PrepareDriverRegEntry debug_env (L "BlackBone") (L "C:\bb\BlackBoneDrv7.sys") initial_world
    = Done 0 w'
    /\ registry w' !! (service_key (L "BlackBone"), L "ImagePath")
       = Some (mkRegValue REG_SZ (wide_bytes (L "\??\C:\bb\BlackBoneDrv7.sys")))
    /\ registry w' !! (service_key (L "BlackBone"), L "Type")
       = Some (mkRegValue REG_DWORD [1; 0xCC; 0xCC; 0xCC])
    /\ dword_of_bytes [1; 0xCC; 0xCC; 0xCC] = 0xCCCCCC01
    /\ dword_of_bytes [1; 0xCC; 0xCC; 0xCC] <> 1.
Proof.
  eexists. split; [vm_compute; reflexivity|].
  split; [vm_compute; reflexivity|]. split; [vm_compute; reflexivity|].
  split; [reflexivity|discriminate].
Qed.

(** ** String fields of the requests *)


Lemma requests_sent_prefix {A} (w : World) (o : Outcome A) (pre : list Call) :
  log (final_world o) = pre ++ log w -> requests_sent w o = omap request_of (rev pre).
Proof. intros E. unfold requests_sent. now rewrite (new_calls_prefix _ _ _ E). Qed.









(** ** The log only grows *)

Lemma emits_ret P {A} (a : A) : emits P (ret a).
Proof. intros w. now exists []. Qed.

Lemma emits_bind P {A B} (m : M A) (k : A -> M B) :
  emits P m -> (forall a, emits P (k a)) -> emits P (bind m k).
Proof.
  intros Hm Hk w. rewrite final_world_bind.
  destruct (Hm w) as (pre & E & F). destruct (m w) as [a w'|w']; cbn in E.
  - destruct (Hk a w') as (pre' & E' & F'). exists (pre' ++ pre).
    rewrite E', E, app_assoc. split; [reflexivity|]. now apply Forall_app.
  - now exists pre.
Qed.

Lemma emits_if P {A} (b : bool) (m1 m2 : M A) :
  emits P m1 -> emits P m2 -> emits P (if b then m1 else m2).
Proof. now destruct b. Qed.

Lemma emits_weaken (P Q : Call -> Prop) {A} (m : M A) :
  (forall c, P c -> Q c) -> emits P m -> emits Q m.
Proof.
  intros PQ H w. destruct (H w) as (pre & E & F). exists pre. split; [exact E|].
  eapply Forall_impl; eauto.
Qed.

(** A primitive that logs the one call [c]. *)
Ltac emits_one c :=
  let w := fresh "w" in
  intros w; exists [c]; split;
  [ cbn; repeat case_if; reflexivity | constructor; [assumption | constructor] ].

Ltac emits_none :=
  let w := fresh "w" in
  intros w; exists []; split; [cbn; repeat case_if; reflexivity | constructor].

Lemma emits_get_hDriver P : emits P get_hDriver.
Proof. emits_none. Qed.

Lemma emits_put_hDriver P h : emits P (put_hDriver h).
Proof. emits_none. Qed.

Lemma emits_LastNtStatus P : emits P LastNtStatus.
Proof. emits_none. Qed.

Lemma emits_LastNtStatus_set P s : emits P (LastNtStatus_set s).
Proof. emits_none. Qed.

Lemma emits_invalid_parameter P env : emits P (invalid_parameter env).
Proof. unfold invalid_parameter. emits_none. Qed.

Lemma emits_CreateFile (P : Call -> Prop) env : P CallCreateFile -> emits P (CreateFile env).
Proof. intros Hc. unfold CreateFile. emits_one CallCreateFile. Qed.

Lemma emits_CloseHandle (P : Call -> Prop) h : P (CallCloseHandle h) -> emits P (CloseHandle h).
Proof. intros Hc. emits_one (CallCloseHandle h). Qed.

Lemma emits_DeviceIoControl (P : Call -> Prop) env h code req out :
  P (CallDeviceIoControl h code req out) -> emits P (DeviceIoControl env h code req out).
Proof. intros Hc. unfold DeviceIoControl. emits_one (CallDeviceIoControl h code req out). Qed.

Lemma emits_NtLoadDriver (P : Call -> Prop) env p :
  P (CallNtLoadDriver p) -> emits P (NtLoadDriver env p).
Proof. intros Hc. emits_one (CallNtLoadDriver p). Qed.

Lemma emits_NtUnloadDriver (P : Call -> Prop) env p :
  P (CallNtUnloadDriver p) -> emits P (NtUnloadDriver env p).
Proof. intros Hc. emits_one (CallNtUnloadDriver p). Qed.

Lemma emits_RegOpenKeyW (P : Call -> Prop) env k s :
  P (CallRegOpenKey k s) -> emits P (RegOpenKeyW env k s).
Proof. intros Hc. emits_one (CallRegOpenKey k s). Qed.

Lemma emits_RegCreateKeyW (P : Call -> Prop) env k s :
  P (CallRegCreateKey k s) -> emits P (RegCreateKeyW env k s).
Proof. intros Hc. emits_one (CallRegCreateKey k s). Qed.

Lemma emits_RegSetValueExW (P : Call -> Prop) env k n t d :
  P (CallRegSetValue k n (mkRegValue t d)) -> emits P (RegSetValueExW env k n t d).
Proof.
  intros Hc. unfold RegSetValueExW. emits_one (CallRegSetValue k n (mkRegValue t d)).
Qed.

Lemma emits_RegCloseKey (P : Call -> Prop) k : P (CallRegCloseKey k) -> emits P (RegCloseKey k).
Proof. intros Hc. emits_one (CallRegCloseKey k). Qed.

Lemma emits_malloc (P : Call -> Prop) n : P (CallMalloc n) -> emits P (malloc n).
Proof. intros Hc. emits_one (CallMalloc n). Qed.

Lemma emits_free (P : Call -> Prop) p : P (CallFree p) -> emits P (free p).
Proof. intros Hc. emits_one (CallFree p). Qed.

Lemma emits_RtlDosPathNameToNtPathName_U (P : Call -> Prop) env p :
  P (CallDosPathNameToNtPathName p) -> emits P (RtlDosPathNameToNtPathName_U env p).
Proof. intros Hc. emits_one (CallDosPathNameToNtPathName p). Qed.

Lemma emits_RtlFreeUnicodeString (P : Call -> Prop) :
  P CallRtlFreeUnicodeString -> emits P RtlFreeUnicodeString.
Proof. intros Hc. emits_one CallRtlFreeUnicodeString. Qed.

(** Walks a monadic body; a primitive's call is checked by evaluation. *)
Ltac emits_prim :=
  first
    [ apply emits_ret | apply emits_get_hDriver | apply emits_put_hDriver
    | apply emits_LastNtStatus | apply emits_LastNtStatus_set | apply emits_invalid_parameter
    | apply emits_CreateFile; exact I | apply emits_CloseHandle; exact I
    | apply emits_DeviceIoControl; exact I
    | apply emits_NtLoadDriver; exact I | apply emits_NtUnloadDriver; exact I
    | apply emits_RegOpenKeyW; exact I | apply emits_RegCreateKeyW; exact I
    | apply emits_RegSetValueExW; exact I | apply emits_RegCloseKey; exact I
    | apply emits_malloc; exact I | apply emits_free; exact I
    | apply emits_RtlDosPathNameToNtPathName_U; exact I
    | apply emits_RtlFreeUnicodeString; exact I ].

Ltac emits_step :=
  match goal with
  | |- emits _ (bind _ _) => apply emits_bind; [| intros ?]
  | |- emits _ (if _ then _ else _) => apply emits_if
  | |- emits _ (let '(_, _) := ?p in _) => destruct p
  | |- emits _ (match ?x with Some _ => _ | None => _ end) => destruct x
  | |- emits _ _ => emits_prim
  end.
Ltac emits_walk := repeat emits_step.

Lemma emits_LoadDriver env svc path : emits (fun _ => True) (LoadDriver env svc path).
Proof.
  unfold LoadDriver, PrepareDriverRegEntry, swprintf_s. emits_walk.
Qed.

Lemma emits_Reload_tail env p :
  emits (fun _ => True)
    (do status <- LoadDriver env DRIVER_SVC_NAME p in
     if negb (NT_SUCCESS status) then LastNtStatus_set status
     else do h <- CreateFile env in
          run put_hDriver h in
          if h =? INVALID_HANDLE_VALUE then LastNtStatus else ret STATUS_SUCCESS).
Proof.
  apply emits_bind; [apply emits_LoadDriver | intros status]. emits_walk.
Qed.

(** ** More on the lifecycle *)

Lemma EnsureLoaded_direct_open env path (w : World) :
  hDriver w = INVALID_HANDLE_VALUE ->
  to_HANDLE (fst (env_CreateFile env (log w))) <> INVALID_HANDLE_VALUE ->
  EnsureLoaded env path w
  = Done STATUS_SUCCESS
      (set_hDriver (to_HANDLE (fst (env_CreateFile env (log w))))
         (set_openHandles (to_HANDLE (fst (env_CreateFile env (log w))) :: openHandles w)
            (logged CallCreateFile w))).
Proof.
  intros Hh Hopen. rewrite EnsureLoaded_unloaded by exact Hh.
  unfold bind, CreateFile, put_hDriver.
  rewrite !(eqb_sentinel_false _ Hopen). reflexivity.
Qed.

Lemma EnsureLoaded_fallback env path (w : World) :
  hDriver w = INVALID_HANDLE_VALUE ->
  to_HANDLE (fst (env_CreateFile env (log w))) = INVALID_HANDLE_VALUE ->
  EnsureLoaded env path w
  = Reload env path
      (set_hDriver INVALID_HANDLE_VALUE
         (set_lastStatus (snd (env_CreateFile env (log w))) (logged CallCreateFile w))).
Proof.
  intros Hh Hfail. rewrite EnsureLoaded_unloaded by exact Hh.
  unfold bind at 1. unfold CreateFile. rewrite Hfail, Z.eqb_refl.
  unfold bind at 1. unfold put_hDriver. reflexivity.
Qed.

(** X1. When the driver is already running, [EnsureLoaded] on an unloaded
    object only opens the device: one CreateFile call, success, the handle
    stored; the service is neither stopped, registered nor started. *)
Theorem EnsureLoaded_opens_running_driver env path (w : World) :
  hDriver w = INVALID_HANDLE_VALUE ->
  to_HANDLE (fst (env_CreateFile env (log w))) <> INVALID_HANDLE_VALUE ->
  let h := to_HANDLE (fst (env_CreateFile env (log w))) in
  EnsureLoaded env path w
  = Done STATUS_SUCCESS
      (set_hDriver h (set_openHandles (h :: openHandles w) (logged CallCreateFile w))).
Proof.
  intros Hh Hopen. cbv zeta. now apply EnsureLoaded_direct_open.
Qed.

Lemma EnsureLoaded_opens_running_driver_witness :
  hDriver initial_world = INVALID_HANDLE_VALUE
  /\ to_HANDLE (fst (env_CreateFile ok_env (log initial_world))) <> INVALID_HANDLE_VALUE
  /\ EnsureLoaded ok_env [] initial_world
     = Done STATUS_SUCCESS
         (set_hDriver 0x44 (set_openHandles [0x44] (logged CallCreateFile initial_world))).
Proof.
  split; [reflexivity|]. split; [discriminate|].
  apply (EnsureLoaded_opens_running_driver ok_env [] initial_world); [reflexivity|discriminate].
Defined.

(** X2. When the device cannot be opened, [EnsureLoaded] on an unloaded
    object is [Reload] with the same path, run after the failed open has
    been logged and has set the thread's last status. *)
Theorem EnsureLoaded_falls_back_to_Reload env path (w : World) :
  hDriver w = INVALID_HANDLE_VALUE ->
  to_HANDLE (fst (env_CreateFile env (log w))) = INVALID_HANDLE_VALUE ->
  EnsureLoaded env path w
  = Reload env path
      (set_hDriver INVALID_HANDLE_VALUE
         (set_lastStatus (snd (env_CreateFile env (log w))) (logged CallCreateFile w))).
Proof.
  intros Hh Hfail. now apply EnsureLoaded_fallback.
Qed.

Lemma EnsureLoaded_falls_back_to_Reload_witness :
  hDriver initial_world = INVALID_HANDLE_VALUE
  /\ to_HANDLE (fst (env_CreateFile dead_env (log initial_world))) = INVALID_HANDLE_VALUE
  /\ EnsureLoaded dead_env [] initial_world
     = Reload dead_env []
         (set_hDriver INVALID_HANDLE_VALUE
            (set_lastStatus (snd (env_CreateFile dead_env (log initial_world)))
               (logged CallCreateFile initial_world))).
Proof.
  split; [reflexivity|]. split; [reflexivity|].
  apply (EnsureLoaded_falls_back_to_Reload dead_env [] initial_world); reflexivity.
Defined.

Lemma Reload_open_means_success env path w st w' :
  Reload env path w = Done st w' ->
  hDriver w' <> INVALID_HANDLE_VALUE -> st = STATUS_SUCCESS.
Proof.
  unfold Reload. unfold bind at 1. rewrite Unload_eq.
  set (w1 := logged (CallNtUnloadDriver stop_path) (closed w)).
  set (p := if bool_decide (path = []) then default_path env else path).
  unfold bind at 1.
  destruct (keeps_LoadDriver env DRIVER_SVC_NAME p w1) as [K1 _].
  destruct (LoadDriver env DRIVER_SVC_NAME p w1) as [status w2|w2]; [|discriminate].
  cbn [final_world] in K1.
  destruct (NT_SUCCESS status); cbn [negb].
  - unfold bind, CreateFile, put_hDriver.
    destruct (to_HANDLE (fst (env_CreateFile env (log w2))) =? INVALID_HANDLE_VALUE) eqn:E.
    + rewrite ?E. unfold LastNtStatus. intros [= <- <-] Hopen. exfalso. apply Hopen. cbn.
      now apply Z.eqb_eq.
    + rewrite ?E. unfold ret. now intros [= <- <-].
  - unfold LastNtStatus_set. cbv beta iota. intros [= <- <-] Hopen. exfalso. apply Hopen.
    cbn. rewrite K1. apply closed_hDriver.
Qed.

(** X3. After [EnsureLoaded] or [Reload] has returned with the handle
    open, the status it returned is STATUS_SUCCESS; put the other way, any
    other status comes with the handle at the sentinel. *)
Theorem load_open_means_success env layout (op : Operation) (w : World) st w' :
  (exists path, op = OpEnsureLoaded path \/ op = OpReload path) ->
  run_operation env layout op w = Done st w' ->
  hDriver w' <> INVALID_HANDLE_VALUE ->
  st = STATUS_SUCCESS.
Proof.
  intros (path & [->| ->]); cbn [run_operation]; [|apply Reload_open_means_success].
  destruct (decide (hDriver w = INVALID_HANDLE_VALUE)) as [Hh|Hh].
  - destruct (decide (to_HANDLE (fst (env_CreateFile env (log w))) = INVALID_HANDLE_VALUE))
      as [Hf|Hf].
    + rewrite EnsureLoaded_fallback by assumption.
      apply Reload_open_means_success.
    + rewrite EnsureLoaded_direct_open by assumption. now intros [= <- <-].
  - rewrite EnsureLoaded_loaded by exact Hh. now intros [= <- <-].
Qed.

Lemma load_open_means_success_witness :
  (exists path : wstring, OpReload [] = OpEnsureLoaded path \/ OpReload [] = OpReload path)
  /\ (forall st w',
        run_operation ok_env shipped_layout (OpReload []) loaded_world = Done st w' ->
        hDriver w' <> INVALID_HANDLE_VALUE -> st = STATUS_SUCCESS).
Proof.
  assert (H : exists path : wstring,
             OpReload [] = OpEnsureLoaded path \/ OpReload [] = OpReload path)
    by (exists []; now right).
  split; [exact H|]. intros st w'.
  apply (load_open_means_success ok_env shipped_layout (OpReload []) loaded_world st w' H).
Defined.




(** X5. [Reload] begins by unloading, whatever the state: the first calls
    it makes are the close of the handle it holds, if it holds one, and the
    stop instruction for the service; everything else comes after. *)
Theorem Reload_stops_first env path (w : World) :
  exists later,
    rev (new_calls w (Reload env path w))
    = (if hDriver w =? INVALID_HANDLE_VALUE then [] else [CallCloseHandle (hDriver w)])
      ++ CallNtUnloadDriver stop_path :: later.
Proof.
  destruct (emits_Reload_tail env (if bool_decide (path = []) then default_path env else path)
              (logged (CallNtUnloadDriver stop_path) (closed w))) as (pre & E & _).
  assert (Hlog : log (final_world (Reload env path w))
                 = (pre ++ CallNtUnloadDriver stop_path
                        :: (if hDriver w =? INVALID_HANDLE_VALUE then []
                            else [CallCloseHandle (hDriver w)])) ++ log w).
  { unfold Reload. rewrite final_world_bind, Unload_eq. cbv zeta. rewrite E.
    unfold closed. rewrite <- app_assoc.
    destruct (hDriver w =? INVALID_HANDLE_VALUE); reflexivity. }
  rewrite (new_calls_prefix _ _ _ Hlog). exists (rev pre).
  rewrite rev_app_distr. cbn [rev].
  destruct (hDriver w =? INVALID_HANDLE_VALUE); cbn; now rewrite <- ?app_assoc.
Qed.

(** X18. Destroying the object leaves nothing behind locally: provided
    the handle invariant held, the destructor closes the handle it held, the
    process has no device handle open afterwards, and the status is that of
    the stop instruction. *)
Theorem destructor_releases env (w : World) :
  handle_inv w ->
  exists st w',
    destructor env w = Done st w'
    /\ hDriver w' = INVALID_HANDLE_VALUE
    /\ openHandles w' = []
    /\ st = env_NtUnloadDriver env (log (closed w)) stop_path
    /\ (hDriver w <> INVALID_HANDLE_VALUE ->
        rev (new_calls w (destructor env w))
        = [CallCloseHandle (hDriver w); CallNtUnloadDriver stop_path]).
Proof.
  intros Hinv. unfold destructor. rewrite Unload_eq. eexists _, _.
  split; [reflexivity|]. split; [apply closed_hDriver|].
  split; [now apply closed_openHandles|]. split; [reflexivity|].
  intros Hopen.
  rewrite (new_calls_prefix _ _ [CallNtUnloadDriver stop_path; CallCloseHandle (hDriver w)]);
    [reflexivity|].
  cbn. unfold closed. now rewrite (eqb_sentinel_false _ Hopen).
Qed.

Lemma destructor_releases_witness :
  handle_inv loaded_world
  /\ exists st w',
      destructor ok_env loaded_world = Done st w'
      /\ hDriver w' = INVALID_HANDLE_VALUE
      /\ openHandles w' = []
      /\ st = env_NtUnloadDriver ok_env (log (closed loaded_world)) stop_path
      /\ (hDriver loaded_world <> INVALID_HANDLE_VALUE ->
          rev (new_calls loaded_world (destructor ok_env loaded_world))
          = [CallCloseHandle (hDriver loaded_world); CallNtUnloadDriver stop_path]).
Proof.
  split; [reflexivity|]. apply (destructor_releases ok_env loaded_world). reflexivity.
Defined.

(** ** More on service registration *)

(** The complete run of [PrepareDriverRegEntry] for a path that fits the
    local buffer, by the answers of the four registry calls. *)
Lemma PrepareDriverRegEntry_run env svcName path w :
  (length (L "\??\" ++ c_str path) < MAX_PATH)%nat ->
  let key := service_key svcName in
  let image := mkRegValue REG_SZ (wide_bytes (L "\??\" ++ c_str path)) in
  let type := mkRegValue REG_DWORD (bytes_at_dwType env) in
  let c1 := CallRegOpenKey HKEY_LOCAL_MACHINE (L "system\CurrentControlSet\Services") in
  let c2 := CallRegCreateKey services_key (c_str svcName) in
  let c3 := CallRegSetValue key (L "ImagePath") image in
  let c4 := CallRegSetValue key (L "Type") type in
  let s1 := env_RegOpenKey env (log w) HKEY_LOCAL_MACHINE
              (L "system\CurrentControlSet\Services") in
  let s2 := env_RegCreateKey env (c1 :: log w) services_key (c_str svcName) in
  let s3 := env_RegSetValue env (c2 :: c1 :: log w) key (L "ImagePath") image in
  let s4 := env_RegSetValue env (c3 :: c2 :: c1 :: log w) key (L "Type") type in
  let w2 := logged c2 (logged c1 w) in
  let w3 := set_registry (<[(key, L "ImagePath") := image]> (registry w)) (logged c3 w2) in
  let close2 := fun w0 => logged (CallRegCloseKey services_key)
                            (logged (CallRegCloseKey key) w0) in
  PrepareDriverRegEntry env svcName path w
  = if negb (s1 =? 0) then Done s1 (logged c1 w)
    else if negb (s2 =? 0) then Done s2 (logged (CallRegCloseKey services_key) w2)
    else if negb (s3 =? 0) then Done s3 (close2 (logged c3 w2))
    else if negb (s4 =? 0) then Done s4 (close2 (logged c4 w3))
    else Done s4 (close2 (set_registry (<[(key, L "Type") := type]> (registry w3))
                            (logged c4 w3))).
Proof.
  intros Hfit. cbv zeta.
  unfold PrepareDriverRegEntry, bind, swprintf_s.
  rewrite (proj2 (Nat.ltb_lt _ _) Hfit).
  unfold ret, RegOpenKeyW, RegCreateKeyW, RegSetValueExW, RegCloseKey.
  cbv beta iota zeta. cbn [log logged set_registry registry].
  fold services_key.
  destruct (env_RegOpenKey env _ _ _ =? 0); cbn [negb]; [|reflexivity].
  cbv beta iota zeta. cbn [log logged set_registry registry].
  fold (service_key svcName).
  destruct (env_RegCreateKey env _ _ _ =? 0); cbn [negb]; [|reflexivity].
  cbv beta iota zeta. cbn [log logged set_registry registry].
  destruct (env_RegSetValue env (CallRegCreateKey _ _ :: _) _ _ _ =? 0); cbn [negb];
    [|reflexivity].
  cbv beta iota zeta. cbn [log logged set_registry registry].
  destruct (env_RegSetValue env _ _ _ _ =? 0); reflexivity.
Qed.





(** X7. When one of the first three registry calls fails,
    [PrepareDriverRegEntry] returns the code of the first call that failed
    and the registry is as it was; no value is written unless the key was
    opened and the service key created, and after a failed write of the image
    path the type is not attempted. *)
Theorem PrepareDriverRegEntry_failure env svcName path (w : World) :
  (length (L "\??\" ++ c_str path) < MAX_PATH)%nat ->
  let key := service_key svcName in
  let image := mkRegValue REG_SZ (wide_bytes (L "\??\" ++ c_str path)) in
  let c1 := CallRegOpenKey HKEY_LOCAL_MACHINE (L "system\CurrentControlSet\Services") in
  let c2 := CallRegCreateKey services_key (c_str svcName) in
  let c3 := CallRegSetValue key (L "ImagePath") image in
  let s1 := env_RegOpenKey env (log w) HKEY_LOCAL_MACHINE
              (L "system\CurrentControlSet\Services") in
  let s2 := env_RegCreateKey env (c1 :: log w) services_key (c_str svcName) in
  let s3 := env_RegSetValue env (c2 :: c1 :: log w) key (L "ImagePath") image in
  s1 <> 0 \/ s2 <> 0 \/ s3 <> 0 ->
  exists w',
    PrepareDriverRegEntry env svcName path w
    = Done (if negb (s1 =? 0) then s1 else if negb (s2 =? 0) then s2 else s3) w'
    /\ registry w' = registry w
    /\ List.filter is_set_value (log w')
       = (if (s1 =? 0) && (s2 =? 0) then [c3] else []) ++ List.filter is_set_value (log w).
Proof.
  intros Hfit. cbv zeta. intros Hfail.
  rewrite PrepareDriverRegEntry_run by exact Hfit. cbv zeta.
  destruct (Z.eqb_spec (env_RegOpenKey env (log w) HKEY_LOCAL_MACHINE
                          (L "system\CurrentControlSet\Services")) 0) as [E1|E1];
    cbn [negb andb]; [|eexists; repeat split; reflexivity].
  destruct (Z.eqb_spec (env_RegCreateKey env
                          (CallRegOpenKey HKEY_LOCAL_MACHINE
                             (L "system\CurrentControlSet\Services") :: log w)
                          services_key (c_str svcName)) 0) as [E2|E2];
    cbn [negb andb]; [|eexists; repeat split; reflexivity].
  destruct (Z.eqb_spec
              (env_RegSetValue env
                 (CallRegCreateKey services_key (c_str svcName)
                  :: CallRegOpenKey HKEY_LOCAL_MACHINE
                       (L "system\CurrentControlSet\Services") :: log w)
                 (service_key svcName) (L "ImagePath")
                 (mkRegValue REG_SZ (wide_bytes (L "\??\" ++ c_str path)))) 0) as [E3|E3];
    cbn [negb]; [|eexists; repeat split; reflexivity].
  exfalso. destruct Hfail as [H|[H|H]]; contradiction.
Qed.

Lemma PrepareDriverRegEntry_failure_witness :
  (length (L "\??\" ++ c_str (L "C:\drv.sys")) < MAX_PATH)%nat
  /\ exists w',
      PrepareDriverRegEntry dead_env (L "BlackBone") (L "C:\drv.sys") loaded_world = Done 5 w'
      /\ registry w' = registry loaded_world.
Proof.
  assert (Hfit : (length (L "\??\" ++ c_str (L "C:\drv.sys")) < MAX_PATH)%nat)
    by (apply Nat.ltb_lt; reflexivity).
  split; [exact Hfit|].
  destruct (PrepareDriverRegEntry_failure dead_env (L "BlackBone") (L "C:\drv.sys")
              loaded_world Hfit) as (w' & Hrun & Hreg & _).
  { left. discriminate. }
  exists w'. split; [exact Hrun | exact Hreg].
Defined.

(** Reads the calls a finished run added off its final log. *)
Ltac log_prefix l w :=
  lazymatch l with
  | log w => constr:(@nil Call)
  | ?c :: ?l' => let p := log_prefix l' w in constr:(c :: p)
  end.
Ltac new_calls_now :=
  match goal with
  | |- context [new_calls ?w ?o] =>
      let l := eval cbn in (log (final_world o)) in
      let pre := log_prefix l w in
      rewrite (new_calls_prefix w o pre) by reflexivity
  end.

(** X8. [PrepareDriverRegEntry] closes exactly the keys it obtained, on
    every path: none when the services key did not open, the services key
    alone when the service key could not be created, and otherwise the
    service key followed by the services key. *)
Theorem PrepareDriverRegEntry_closes_keys env svcName path (w : World) :
  (length (L "\??\" ++ c_str path) < MAX_PATH)%nat ->
  let c1 := CallRegOpenKey HKEY_LOCAL_MACHINE (L "system\CurrentControlSet\Services") in
  let s1 := env_RegOpenKey env (log w) HKEY_LOCAL_MACHINE
              (L "system\CurrentControlSet\Services") in
  let s2 := env_RegCreateKey env (c1 :: log w) services_key (c_str svcName) in
  List.filter is_close_key (rev (new_calls w (PrepareDriverRegEntry env svcName path w)))
  = if negb (s1 =? 0) then []
    else if negb (s2 =? 0) then [CallRegCloseKey services_key]
    else [CallRegCloseKey (service_key svcName); CallRegCloseKey services_key].
Proof.
  intros Hfit. cbv zeta.
  rewrite PrepareDriverRegEntry_run by exact Hfit. cbv zeta.
  destruct (env_RegOpenKey env _ _ _ =? 0); cbn [negb]; [|now new_calls_now].
  destruct (env_RegCreateKey env _ _ _ =? 0); cbn [negb]; [|now new_calls_now].
  destruct (env_RegSetValue env (CallRegCreateKey _ _ :: _) _ _ _ =? 0); cbn [negb];
    [|now new_calls_now].
  destruct (env_RegSetValue env _ _ _ _ =? 0); cbn [negb]; now new_calls_now.
Qed.

Lemma PrepareDriverRegEntry_closes_keys_witness :
  (length (L "\??\" ++ c_str (L "C:\drv.sys")) < MAX_PATH)%nat
  /\ List.filter is_close_key
       (rev (new_calls loaded_world
               (PrepareDriverRegEntry debug_env (L "BlackBone") (L "C:\drv.sys") loaded_world)))
     = [CallRegCloseKey (service_key (L "BlackBone")); CallRegCloseKey services_key].
Proof.
  assert (Hfit : (length (L "\??\" ++ c_str (L "C:\drv.sys")) < MAX_PATH)%nat)
    by (apply Nat.ltb_lt; reflexivity).
  split; [exact Hfit|].
  exact (PrepareDriverRegEntry_closes_keys debug_env (L "BlackBone") (L "C:\drv.sys")
           loaded_world Hfit).
Defined.

Lemma wide_bytes_cons (c : Z) (s : wstring) :
  wide_bytes (c :: s) = c mod 256 :: (c / 256) mod 256 :: wide_bytes s.
Proof. reflexivity. Qed.

Lemma wstring_of_bytes_wide_bytes (s : wstring) :
  Forall wchar_nonzero s -> wstring_of_bytes (wide_bytes s) = s.
Proof.
  induction 1 as [|c s Hc _ IH]; [reflexivity|].
  rewrite wide_bytes_cons. cbn [wstring_of_bytes]. cbv zeta.
  unfold wchar_nonzero in Hc.
  assert (E : c mod 256 + 256 * ((c / 256) mod 256) = c).
  { rewrite (Z.mod_small (c / 256) 256).
    - rewrite Z.add_comm. symmetry. apply Z.div_mod. lia.
    - split; [apply Z.div_pos; lia | apply Z.div_lt_upper_bound; lia]. }
  rewrite E. rewrite (proj2 (Z.eqb_neq c 0)) by lia. now rewrite IH.
Qed.

Lemma wide_bytes_length (s : wstring) : length (wide_bytes s) = (2 * (length s + 1))%nat.
Proof.
  induction s as [|c s IH]; [reflexivity|].
  rewrite wide_bytes_cons. cbn [length]. rewrite IH. lia.
Qed.

Lemma c_str_nonzero (s : wstring) : Forall (fun c => c <> 0) (c_str s).
Proof.
  induction s as [|c s IH]; cbn; [constructor|].
  destruct (Z.eqb_spec c 0); [constructor|]. now constructor.
Qed.

(** X9. The image path survives the trip through the registry: once the
    key is open, the service key created and the value written, the
    "ImagePath" value is a REG_SZ of [2 * (length + 1)] bytes that reads back
    as the characters \??\ followed by the path given, for every path of
    16-bit characters that fits the buffer; this holds whether or not the
    later write of "Type" succeeds. *)
Theorem image_path_round_trip env svcName path (w : World) :
  (length (L "\??\" ++ c_str path) < MAX_PATH)%nat ->
  Forall (fun c => 0 <= c < 65536) path ->
  let key := service_key svcName in
  let image := mkRegValue REG_SZ (wide_bytes (L "\??\" ++ c_str path)) in
  let c1 := CallRegOpenKey HKEY_LOCAL_MACHINE (L "system\CurrentControlSet\Services") in
  let c2 := CallRegCreateKey services_key (c_str svcName) in
  env_RegOpenKey env (log w) HKEY_LOCAL_MACHINE (L "system\CurrentControlSet\Services") = 0 ->
  env_RegCreateKey env (c1 :: log w) services_key (c_str svcName) = 0 ->
  env_RegSetValue env (c2 :: c1 :: log w) key (L "ImagePath") image = 0 ->
  exists st w' v,
    PrepareDriverRegEntry env svcName path w = Done st w'
    /\ registry w' !! (key, L "ImagePath") = Some v
    /\ reg_type v = REG_SZ
    /\ wstring_of_bytes (reg_data v) = L "\??\" ++ c_str path
    /\ length (reg_data v) = (2 * (length (L "\??\" ++ c_str path) + 1))%nat.
Proof.
  intros Hfit Hwide. cbv zeta. intros H1 H2 H3.
  rewrite PrepareDriverRegEntry_run by exact Hfit. cbv zeta.
  rewrite H1, H2, H3. cbn [Z.eqb negb].
  assert (Hdec : wstring_of_bytes (wide_bytes (L "\??\" ++ c_str path)) = L "\??\" ++ c_str path).
  { apply wstring_of_bytes_wide_bytes. apply Forall_app. split.
    - repeat constructor.
    - assert (Hsub : forall s : wstring, Forall (fun c => 0 <= c < 65536) s ->
                                          Forall wchar_nonzero (c_str s)).
      { induction 1 as [|c s Hc _ IH]; cbn; [constructor|].
        destruct (Z.eqb_spec c 0); [constructor|].
        constructor; [unfold wchar_nonzero; lia | exact IH]. }
      now apply Hsub. }
  destruct (env_RegSetValue env _ _ _ _ =? 0); cbn [negb];
    eexists _, _, _; (split; [reflexivity|]); cbn [registry set_registry logged].
  - split.
    { rewrite lookup_insert_ne by (intros [= H]; discriminate H). apply lookup_insert_eq. }
    split; [reflexivity|]. split; [exact Hdec | apply wide_bytes_length].
  - split; [apply lookup_insert_eq|]. split; [reflexivity|].
    split; [exact Hdec | apply wide_bytes_length].
Qed.

Lemma image_path_round_trip_witness :
  (length (L "\??\" ++ c_str (L "C:\drv.sys")) < MAX_PATH)%nat
  /\ Forall (fun c => 0 <= c < 65536) (L "C:\drv.sys")
  /\ exists st w' v,
      PrepareDriverRegEntry debug_env (L "BlackBone") (L "C:\drv.sys") loaded_world = Done st w'
      /\ registry w' !! (service_key (L "BlackBone"), L "ImagePath") = Some v
      /\ reg_type v = REG_SZ
      /\ wstring_of_bytes (reg_data v) = L "\??\" ++ c_str (L "C:\drv.sys")
      /\ length (reg_data v) = (2 * (length (L "\??\" ++ c_str (L "C:\drv.sys")) + 1))%nat.
Proof.
  assert (Hfit : (length (L "\??\" ++ c_str (L "C:\drv.sys")) < MAX_PATH)%nat)
    by (apply Nat.ltb_lt; reflexivity).
  assert (Hwide : Forall (fun c => 0 <= c < 65536) (L "C:\drv.sys"))
    by (repeat constructor; discriminate).
  split; [exact Hfit|]. split; [exact Hwide|].
  apply (image_path_round_trip debug_env (L "BlackBone") (L "C:\drv.sys") loaded_world
           Hfit Hwide); reflexivity.
Defined.

(** ** More on the commands *)

(** Unfolds a command down to the primitives and splits on every test. *)
Ltac unfold_command :=
  cbn [run_command];
  unfold only_status, UnmapMemory, UnmapMemoryRegion, DisableDEP, ProtectProcess,
    PromoteHandle, FreeMem, ReadMem, WriteMem, ProtectMem, ConcealVAD, simple_command,
    MapMemory, MapMemoryRegion, AllocateMem, InjectDll, MMapDriver;
  unfold bind, get_hDriver, wcscpy_s, wcscpy_s_null, RtlDosPathNameToNtPathName_U,
    RtlFreeUnicodeString;
  unfold bind, invalid_parameter, DeviceIoControl, malloc, free, LastNtStatus, ret.

Ltac case_test :=
  match goal with
  | |- context [if ?b then _ else _] =>
      lazymatch type of b with bool => destruct b eqn:? end
  end.

Ltac split_command :=
  repeat (first [ case_test
                | match goal with
                  | |- context [match ?x with Some _ => _ | None => _ end] => destruct x eqn:?
                  end ];
          cbv beta iota zeta).

Lemma run_command_not_loaded env layout (c : Command) (w : World) :
  hDriver w = INVALID_HANDLE_VALUE ->
  run_command env layout c w = Done (STATUS_DEVICE_DOES_NOT_EXIST, inputs_of c) w.
Proof.
  intros H. pose proof (proj2 (Z.eqb_eq _ _) H) as Eb.
  destruct c; unfold_command; rewrite Eb; reflexivity.
Qed.

(** X10. The status a command returns is one of three: STATUS_SUCCESS;
    STATUS_DEVICE_DOES_NOT_EXIST, only when the handle was the sentinel; or,
    with the handle open, the thread's last status as it stands when the
    command returns. *)
Theorem command_status_space env layout (c : Command) (w : World) :
  match run_command env layout c w with
  | Done (st, _) w' =>
      st = STATUS_SUCCESS
      \/ (hDriver w = INVALID_HANDLE_VALUE /\ st = STATUS_DEVICE_DOES_NOT_EXIST)
      \/ (hDriver w <> INVALID_HANDLE_VALUE /\ st = lastStatus w')
  | Aborted _ => True
  end.
Proof.
  destruct (Z.eqb_spec (hDriver w) INVALID_HANDLE_VALUE) as [E|E].
  - rewrite (run_command_not_loaded env layout c w E). right. left. now split.
  - pose proof (eqb_sentinel_false _ E) as Eb.
    destruct c; unfold_command; rewrite Eb; cbv beta iota zeta; split_command;
      auto; right; right; (split; [exact E | reflexivity]).
Qed.

Lemma emits_simple_command env code req out :
  emits is_channel_side (simple_command env code req out).
Proof. unfold simple_command. emits_walk. Qed.

Lemma emits_run_command env layout c : emits is_channel_side (run_command env layout c).
Proof.
  destruct c; cbn [run_command];
    unfold only_status, UnmapMemory, UnmapMemoryRegion, DisableDEP, ProtectProcess,
      PromoteHandle, FreeMem, ReadMem, WriteMem, ProtectMem, ConcealVAD, simple_command,
      MapMemory, MapMemoryRegion, AllocateMem, InjectDll, MMapDriver,
      wcscpy_s, wcscpy_s_null;
    emits_walk.
Qed.

Lemma registry_run_command env layout c w :
  registry (final_world (run_command env layout c w)) = registry w.
Proof.
  destruct c; unfold_command; split_command; reflexivity.
Qed.

(** X11. A command stays on the channel: the calls it makes are device
    control requests, [malloc]/[free] and the path conversion, added to the
    log after what was there; it never opens or closes the device, never
    starts or stops the service, and never touches the registry, which is
    left as it was. *)
Theorem commands_stay_on_channel env layout (c : Command) (w : World) :
  (exists pre,
      log (final_world (run_command env layout c w)) = pre ++ log w
      /\ Forall is_channel_side pre)
  /\ registry (final_world (run_command env layout c w)) = registry w
  /\ hDriver (final_world (run_command env layout c w)) = hDriver w
  /\ openHandles (final_world (run_command env layout c w)) = openHandles w.
Proof.
  split; [apply emits_run_command|]. split; [apply registry_run_command|].
  apply keeps_run_command.
Qed.

(** X12. With the handle open, a command that returns has made exactly one
    round trip, or one or two in the case of [MapMemory]; a command ended by
    the CRT has made none. *)
Theorem command_round_trips env layout (c : Command) (w : World) :
  hDriver w <> INVALID_HANDLE_VALUE ->
  match run_command env layout c w with
  | Done _ _ =>
      if is_MapMemory c
      then round_trips w (run_command env layout c w) = 1%nat
           \/ round_trips w (run_command env layout c w) = 2%nat
      else round_trips w (run_command env layout c w) = 1%nat
  | Aborted _ => round_trips w (run_command env layout c w) = 0%nat
  end.
Proof.
  intros E. pose proof (eqb_sentinel_false _ E) as Eb.
  destruct c; cbn [is_MapMemory]; unfold round_trips, ioctl_count; unfold_command;
    rewrite Eb; cbv beta iota zeta; split_command; cbn; lia.
Qed.

Lemma command_round_trips_witness :
  hDriver loaded_world <> INVALID_HANDLE_VALUE
  /\ round_trips loaded_world
       (run_command ok_env shipped_layout (CmdConcealVAD 1234 0x10000 0x1000) loaded_world)
     = 1%nat.
Proof.
  assert (H : hDriver loaded_world <> INVALID_HANDLE_VALUE) by discriminate.
  split; [exact H|].
  exact (command_round_trips ok_env shipped_layout (CmdConcealVAD 1234 0x10000 0x1000)
           loaded_world H).
Defined.

(** X13. [MapMemoryRegion] with the handle open makes one round trip with
    the request (pid, base, size).  On success every field of the caller's
    result is the field of the same name in the response; on failure the
    caller's result is untouched and the status is the one the failed call
    left behind. *)
Theorem MapMemoryRegion_result env pid base size result (w : World) :
  hDriver w <> INVALID_HANDLE_VALUE ->
  let call := CallDeviceIoControl (hDriver w) IOCTL_BLACKBONE_MAP_REGION
                (MAP_MEMORY_REGION pid base size) OutMapRegionResult in
  let res := env_DeviceIoControl env (log w) (hDriver w) IOCTL_BLACKBONE_MAP_REGION
               (MAP_MEMORY_REGION pid base size) OutMapRegionResult in
  let r := as_MAP_MEMORY_REGION_RESULT (io_out res) in
  exists st result' w',
    MapMemoryRegion env pid base size result w = Done (st, result') w'
    /\ log w' = call :: log w
    /\ (io_ok res = true ->
        st = STATUS_SUCCESS
        /\ MapMemoryRegionResult.newPtr result' = MAP_MEMORY_REGION_RESULT.newPtr r
        /\ MapMemoryRegionResult.originalPtr result' = MAP_MEMORY_REGION_RESULT.originalPtr r
        /\ MapMemoryRegionResult.removedPtr result' = MAP_MEMORY_REGION_RESULT.removedPtr r
        /\ MapMemoryRegionResult.removedSize result' = MAP_MEMORY_REGION_RESULT.removedSize r
        /\ MapMemoryRegionResult.size result' = MAP_MEMORY_REGION_RESULT.size r)
    /\ (io_ok res = false -> st = io_status res /\ result' = result).
Proof.
  intros E. cbv zeta. unfold MapMemoryRegion, bind, get_hDriver.
  rewrite (eqb_sentinel_false _ E). unfold DeviceIoControl, LastNtStatus, ret.
  destruct (io_ok _); eexists _, _, _; (split; [reflexivity|]); cbn;
    (split; [reflexivity|]); split; intros H; try discriminate H; repeat split.
Qed.

Lemma MapMemoryRegion_result_witness :
  hDriver loaded_world <> INVALID_HANDLE_VALUE
  /\ exists st result' w',
      MapMemoryRegion failing_env 1234 0x10000 0x1000
        (MapMemoryRegionResult.mk 1 2 3 4 5) loaded_world = Done (st, result') w'
      /\ st = to_LONG 0xC0000017
      /\ result' = MapMemoryRegionResult.mk 1 2 3 4 5.
Proof.
  assert (H : hDriver loaded_world <> INVALID_HANDLE_VALUE) by discriminate.
  split; [exact H|].
  destruct (MapMemoryRegion_result failing_env 1234 0x10000 0x1000
              (MapMemoryRegionResult.mk 1 2 3 4 5) loaded_world H)
    as (st & result' & w' & Hrun & _ & _ & Hfail).
  exists st, result', w'. split; [exact Hrun|]. apply Hfail. reflexivity.
Defined.

(** X14. When the channel accepts the request, [AllocateMem] returns
    success with base and size set to the address and size the driver
    reported, whatever the caller passed in; the one request sent carries the
    caller's values with the allocate flag set. *)
Theorem AllocateMem_success env pid base size type protection physical (w : World) :
  hDriver w <> INVALID_HANDLE_VALUE ->
  let req := ALLOCATE_FREE_MEMORY pid base size type protection true physical in
  let res := env_DeviceIoControl env (log w) (hDriver w) IOCTL_BLACKBONE_ALLOCATE_FREE_MEMORY
               req OutAllocResult in
  io_ok res = true ->
  exists w',
    AllocateMem env pid base size type protection physical w
    = Done (STATUS_SUCCESS,
            ALLOCATE_FREE_MEMORY_RESULT.address (as_ALLOCATE_FREE_MEMORY_RESULT (io_out res)),
            ALLOCATE_FREE_MEMORY_RESULT.size (as_ALLOCATE_FREE_MEMORY_RESULT (io_out res))) w'
    /\ requests_sent w (AllocateMem env pid base size type protection physical w) = [req]
    /\ lastStatus w' = lastStatus w.
Proof.
  intros E. cbv zeta. intros Hok.
  rewrite AllocateMem_loaded by exact E. cbv zeta. rewrite Hok.
  eexists. split; [reflexivity|]. split; [|reflexivity].
  now rewrite (requests_sent_prefix _ _
                 [CallDeviceIoControl (hDriver w) IOCTL_BLACKBONE_ALLOCATE_FREE_MEMORY
                    (ALLOCATE_FREE_MEMORY pid base size type protection true physical)
                    OutAllocResult]).
Qed.

Lemma AllocateMem_success_witness :
  hDriver loaded_world <> INVALID_HANDLE_VALUE
  /\ io_ok (env_DeviceIoControl ok_env (log loaded_world) (hDriver loaded_world)
              IOCTL_BLACKBONE_ALLOCATE_FREE_MEMORY
              (ALLOCATE_FREE_MEMORY 1234 0 0x1000 0x3000 0x40 true false) OutAllocResult) = true
  /\ requests_sent loaded_world (AllocateMem ok_env 1234 0 0x1000 0x3000 0x40 false loaded_world)
     = [ALLOCATE_FREE_MEMORY 1234 0 0x1000 0x3000 0x40 true false].
Proof.
  assert (H : hDriver loaded_world <> INVALID_HANDLE_VALUE) by discriminate.
  split; [exact H|]. split; [reflexivity|].
  destruct (AllocateMem_success ok_env 1234 0 0x1000 0x3000 0x40 false loaded_world H)
    as (w' & _ & Hreq & _); [reflexivity | exact Hreq].
Defined.

(** X15. [MapMemory] exposes no partial result: whenever it returns a
    status other than STATUS_SUCCESS, the caller's result object is exactly
    as it was passed in. *)
Theorem MapMemory_failure_keeps_result env layout pid pipeName ms result (w : World)
  st result' w' :
  MapMemory env layout pid pipeName ms result w = Done (st, result') w' ->
  st <> STATUS_SUCCESS ->
  result' = result.
Proof.
  intros Hrun Hst.
  destruct (MapMemory_result _ _ _ _ _ _ _ _ _ _ Hrun) as [->|(r & -> & _)];
    [reflexivity | contradiction].
Qed.

Lemma failed_fetch_run :
  exists w',
    MapMemory (live_env (map_channel 64 None)) shipped_layout
      1234 (L "bbpipe") false stale_result loaded_world
    = Done (to_LONG 0xC0000017, stale_result) w'.
Proof.
  eexists.
  rewrite MapMemory_loaded; [reflexivity | discriminate | apply Nat.ltb_lt; reflexivity].
Qed.

Lemma MapMemory_failure_keeps_result_witness :
  exists w',
    MapMemory (live_env (map_channel 64 None)) shipped_layout
      1234 (L "bbpipe") false stale_result loaded_world
    = Done (to_LONG 0xC0000017, stale_result) w'
    /\ to_LONG 0xC0000017 <> STATUS_SUCCESS
    /\ stale_result = stale_result.
Proof.
  destruct failed_fetch_run as (w' & Hrun). exists w'.
  assert (Hst : to_LONG 0xC0000017 <> STATUS_SUCCESS) by discriminate.
  split; [exact Hrun|]. split; [exact Hst|].
  exact (MapMemory_failure_keeps_result _ _ _ _ _ _ _ _ _ _ Hrun Hst).
Defined.





(** X17. [MMapDriver] with the handle open converts the path first and
    releases the converted string before it sends the request: a call that
    returns has made exactly the calls conversion, release, request, in that
    order, and sends an empty path when the conversion gave nothing; a call
    ended by the CRT has made only the conversion. *)
Theorem MMapDriver_releases_string env layout path (w : World) :
  hDriver w <> INVALID_HANDLE_VALUE ->
  match MMapDriver env layout path w with
  | Done _ _ =>
      exists FullPath,
        rev (new_calls w (MMapDriver env layout path w))
        = [CallDosPathNameToNtPathName (c_str path); CallRtlFreeUnicodeString;
           CallDeviceIoControl (hDriver w) IOCTL_BLACKBONE_MAP_DRIVER (MMAP_DRIVER FullPath)
             OutNull]
        /\ (env_DosPathNameToNtPathName env (log w) (c_str path) = None -> FullPath = [])
  | Aborted _ =>
      rev (new_calls w (MMapDriver env layout path w))
      = [CallDosPathNameToNtPathName (c_str path)]
  end.
Proof.
  intros E. pose proof (eqb_sentinel_false _ E) as Eb.
  unfold MMapDriver, bind, get_hDriver. rewrite Eb.
  unfold RtlDosPathNameToNtPathName_U, wcscpy_s, wcscpy_s_null, bind, invalid_parameter,
    RtlFreeUnicodeString, DeviceIoControl, LastNtStatus, ret.
  cbv beta iota zeta.
  destruct (env_DosPathNameToNtPathName env (log w) (c_str path)) as [nt|];
    split_command; cbn [log logged set_lastStatus hDriver];
    try (eexists; split; [new_calls_now; reflexivity | intros H; first [discriminate H | reflexivity]]);
    new_calls_now; reflexivity.
Qed.

Lemma MMapDriver_releases_string_witness :
  hDriver loaded_world <> INVALID_HANDLE_VALUE
  /\ match MMapDriver ok_env shipped_layout (L "C:\drv.sys") loaded_world with
     | Done _ _ =>
         exists FullPath,
           rev (new_calls loaded_world
                  (MMapDriver ok_env shipped_layout (L "C:\drv.sys") loaded_world))
           = [CallDosPathNameToNtPathName (c_str (L "C:\drv.sys")); CallRtlFreeUnicodeString;
              CallDeviceIoControl (hDriver loaded_world) IOCTL_BLACKBONE_MAP_DRIVER
                (MMAP_DRIVER FullPath) OutNull]
           /\ (env_DosPathNameToNtPathName ok_env (log loaded_world) (c_str (L "C:\drv.sys"))
               = None -> FullPath = [])
     | Aborted _ =>
         rev (new_calls loaded_world
                (MMapDriver ok_env shipped_layout (L "C:\drv.sys") loaded_world))
         = [CallDosPathNameToNtPathName (c_str (L "C:\drv.sys"))]
     end.
Proof.
  assert (H : hDriver loaded_world <> INVALID_HANDLE_VALUE) by discriminate.
  split; [exact H|].
  exact (MMapDriver_releases_string ok_env shipped_layout (L "C:\drv.sys") loaded_world H).
Defined.
